(** * RPN calculator: tokenizer, shunting-yard converter and stack evaluator

    A shallow embedding of [rpn_calculator.py] (class [RPNCalculator]) and the
    properties of its behaviour.

    Conventions of the embedding.
    - A Python [str] is a [string]; its characters are the code points below
      256.
    - A Python list used as a stack ([operator_stack], [stack]) is a [list]
      whose head is the top of the stack: [operator_stack[-1]] is the head,
      [append] is a cons and [pop] removes the head.  The [output] list is a
      [list] in its own order, [output.append(t)] is [output ++ [t]].
    - An exception is an explicit [Raise] result.
    - The built-in float type and the functions of the [operator] module are
      the interface [PyNum]; everything except the worked examples is proved
      for every implementation of that interface. *)

From Stdlib Require Import Bool Arith ZArith NArith Lia List String Ascii Floats.
From Stdlib Require Import Permutation.
Import ListNotations.
Open Scope string_scope.
Open Scope list_scope.

(* ================================================================= *)
(** ** Characters and substrings *)

Definition code (c : ascii) : N := N_of_ascii c.

(** [\d] on the code points below 256: the ten ASCII digits. *)
Definition is_digit (c : ascii) : bool :=
  (48 <=? code c)%N && (code c <=? 57)%N.

(** The character class [[()+\-*/^]] of the token pattern. *)
Definition is_symbol (c : ascii) : bool :=
  match c with
  | "("%char | ")"%char | "+"%char | "-"%char | "*"%char | "/"%char | "^"%char => true
  | _ => false
  end.

(** The longest prefix of digits of [s] and what follows it: a greedy [\d*]. *)
Fixpoint digits (s : string) : string * string :=
  match s with
  | String c r =>
      if is_digit c then let (d, rest) := digits r in (String c d, rest)
      else ("", s)
  | "" => ("", "")
  end.

(** A greedy [\.?]. *)
Definition optional_dot (s : string) : string * string :=
  match s with
  | String "."%char r => (".", r)
  | _ => ("", s)
  end.

Definition is_empty (s : string) : bool :=
  match s with "" => true | _ => false end.

(* ================================================================= *)
(** ** [tokenize]: [re.findall(r'\d+\.?\d*|[()+\-*/^]', expression)] *)

(** First alternative, [\d+\.?\d*], matched at the start of [s]: the token and
    the rest of the input.  Every quantifier is greedy, and after a non-empty
    [\d+] the rest of the pattern cannot fail, so the first attempt of the
    backtracking matcher is the match. *)
Definition match_number (s : string) : option (string * string) :=
  let (int_part, s1) := digits s in
  if is_empty int_part then None
  else
    let (dot, s2) := optional_dot s1 in
    let (frac_part, s3) := digits s2 in
    Some ((int_part ++ dot ++ frac_part)%string, s3).

(** Second alternative, one character of [[()+\-*/^]]. *)
Definition match_symbol (s : string) : option (string * string) :=
  match s with
  | String c r => if is_symbol c then Some (String c "", r) else None
  | "" => None
  end.

(** The alternation tries the number first. *)
Definition match_token (s : string) : option (string * string) :=
  match match_number s with
  | Some m => Some m
  | None => match_symbol s
  end.

(** [re.findall]: scan from the left; where the pattern matches, emit the
    match and go on after it, elsewhere skip one character.  [fuel] bounds the
    number of scan positions. *)
Fixpoint findall (fuel : nat) (s : string) : list string :=
  match fuel with
  | O => []
  | S fuel' =>
      match s with
      | "" => []
      | String _ r =>
          match match_token s with
          | Some (token, rest) => token :: findall fuel' rest
          | None => findall fuel' r
          end
      end
  end.

Definition tokenize (expression : string) : list string :=
  findall (String.length expression) expression.

(* ================================================================= *)
(** ** The built-in [float(str)] *)

(** What a string accepted by [float] denotes, before rounding:
    [+-mantissa * 10^exponent10], an infinity or a NaN. *)
Inductive float_literal : Type :=
| Decimal (negative : bool) (mantissa : Z) (exponent10 : Z)
| Infinity (negative : bool)
| NaN (negative : bool).

(** Underscores are removed when each stands between two digits; any other
    underscore makes the string invalid.  [prev] is the previous character. *)
Fixpoint remove_underscores (prev : ascii) (s : string) : option string :=
  match s with
  | "" => if Ascii.eqb prev "_" then None else Some ""
  | String c r =>
      if Ascii.eqb c "_" then
        if is_digit prev then remove_underscores c r else None
      else if Ascii.eqb prev "_" && negb (is_digit c) then None
      else option_map (String c) (remove_underscores c r)
  end.

(** White space stripped by [float]: tab, LF, VT, FF, CR, space, and the two
    white-space code points above 127, NEL and NBSP. *)
Definition float_space (c : ascii) : bool :=
  ((9 <=? code c)%N && (code c <=? 13)%N)
  || (code c =? 32)%N || (code c =? 133)%N || (code c =? 160)%N.

Fixpoint lstrip (s : string) : string :=
  match s with
  | String c r => if float_space c then lstrip r else s
  | "" => ""
  end.

Fixpoint rstrip (s : string) : string :=
  match s with
  | "" => ""
  | String c r =>
      match rstrip r with
      | "" => if float_space c then "" else String c ""
      | r' => String c r'
      end
  end.

Definition sign (s : string) : bool * string :=
  match s with
  | String "-"%char r => (true, r)
  | String "+"%char r => (false, r)
  | _ => (false, s)
  end.

Definition to_lower (c : ascii) : ascii :=
  if (65 <=? code c)%N && (code c <=? 90)%N then ascii_of_N (code c + 32) else c.

Fixpoint lowercase (s : string) : string :=
  match s with
  | String c r => String (to_lower c) (lowercase r)
  | "" => ""
  end.

(** The number written by a string of decimal digits. *)
Fixpoint decimal_value (acc : Z) (s : string) : Z :=
  match s with
  | String c r => decimal_value (10 * acc + (Z.of_N (code c) - 48))%Z r
  | "" => acc
  end.

(** The exponent part: nothing, or [e]/[E], an optional sign and at least one
    digit, up to the end of the string. *)
Definition parse_exponent (s : string) : option Z :=
  match s with
  | "" => Some 0%Z
  | String c r =>
      if Ascii.eqb c "e" || Ascii.eqb c "E" then
        let (neg, r1) := sign r in
        let (ds, r2) := digits r1 in
        if is_empty ds || negb (is_empty r2) then None
        else Some (if neg then (- decimal_value 0 ds)%Z else decimal_value 0 ds)
      else None
  end.

(** A stripped string: an optional sign, then [inf], [infinity] or [nan] in any
    case, or digits with an optional point (at least one digit before or after
    it) and an optional exponent. *)
Definition parse_float_body (s : string) : option float_literal :=
  let (neg, r) := sign s in
  let low := lowercase r in
  if (low =? "inf") || (low =? "infinity") then Some (Infinity neg)
  else if low =? "nan" then Some (NaN neg)
  else
    let (int_part, r1) := digits r in
    let (dot, r2) := optional_dot r1 in
    let (frac_part, r3) := if is_empty dot then ("", r1) else digits r2 in
    if is_empty int_part && is_empty frac_part then None
    else
      match parse_exponent r3 with
      | Some e =>
          Some (Decimal neg (decimal_value 0 (int_part ++ frac_part)%string)
                        (e - Z.of_nat (String.length frac_part)))
      | None => None
      end.

(** The syntax of [float(s)]; [None] is [ValueError]. *)
Definition parse_float (s : string) : option float_literal :=
  match remove_underscores "000"%char s with
  | Some s' => parse_float_body (rstrip (lstrip s'))
  | None => None
  end.

(* ================================================================= *)
(** ** The number interface *)

(** Python's float arithmetic as the calculator uses it.  [number] is the type
    of the values on the operand stack, [host_exception] the exceptions the
    built-in arithmetic itself raises ([ZeroDivisionError], [OverflowError]);
    [float_of_literal] is the value [float] gives to an accepted string,
    [equals_zero x] is [x == 0], and the five binary functions are those of the
    [operator] module. *)
Class PyNum : Type := {
  number : Type;
  host_exception : Type;
  float_of_literal : float_literal -> number;
  equals_zero : number -> bool;
  operator_add : number -> number -> host_exception + number;
  operator_sub : number -> number -> host_exception + number;
  operator_mul : number -> number -> host_exception + number;
  operator_truediv : number -> number -> host_exception + number;
  operator_pow : number -> number -> host_exception + number
}.

(** The [ValueError]s of the calculator, told apart by their message:
    "Пустое выражение", "Несбалансированные скобки",
    "Недостаточно операндов для оператора", "Деление на ноль",
    "Неизвестный токен: ..." and "Некорректное выражение". *)
Inductive error_kind : Type :=
| EmptyExpression
| UnbalancedParentheses
| InsufficientOperands
| DivisionByZero
| UnknownToken (token : string)
| MalformedExpression.

Section Calculator.

Context {num : PyNum}.

Inductive exception : Type :=
| ValueError (kind : error_kind)
| KeyError (key : string)
| ArithmeticError (e : host_exception).

Inductive result (A : Type) : Type :=
| Return (a : A)
| Raise (e : exception).

Arguments Return {A} a.
Arguments Raise {A} e.

Definition bind {A B : Type} (r : result A) (k : A -> result B) : result B :=
  match r with
  | Return a => k a
  | Raise e => Raise e
  end.

Notation "x <- r ;; k" := (bind r (fun x => k))
  (at level 61, r at next level, right associativity).

(** [float(token)], [None] for [ValueError]. *)
Definition py_float (token : string) : option number :=
  option_map float_of_literal (parse_float token).

(** An entry of the [self.operators] dictionary. *)
Record operator_entry : Type := {
  precedence : Z;
  associativity : string;
  function : number -> number -> host_exception + number
}.

(** [self.operators], as the lookup [self.operators[symbol]]; [None] when the
    key is absent. *)
Definition operators (symbol : string) : option operator_entry :=
  if symbol =? "+" then
    Some {| precedence := 1; associativity := "left"; function := operator_add |}
  else if symbol =? "-" then
    Some {| precedence := 1; associativity := "left"; function := operator_sub |}
  else if symbol =? "*" then
    Some {| precedence := 2; associativity := "left"; function := operator_mul |}
  else if symbol =? "/" then
    Some {| precedence := 2; associativity := "left"; function := operator_truediv |}
  else if symbol =? "^" then
    Some {| precedence := 3; associativity := "right"; function := operator_pow |}
  else None.

(** [token in self.operators]. *)
Definition in_operators (token : string) : bool :=
  match operators token with Some _ => true | None => false end.

(** [is_number]: [float(token)] succeeds. *)
Definition is_number (token : string) : bool :=
  match py_float token with Some _ => true | None => false end.

(** [sub in s] for two strings: [sub] occurs in [s]. *)
Fixpoint contains (s sub : string) : bool :=
  String.prefix sub s ||
  match s with
  | String _ r => contains r sub
  | "" => false
  end.

(** [_should_pop_operator].  [self.operators[current_op]] raises [KeyError]
    when [current_op] is not a key. *)
Definition _should_pop_operator (current_op stack_top : string) : result bool :=
  match operators stack_top with
  | None => Return false
  | Some top_entry =>
      match operators current_op with
      | None => Raise (KeyError current_op)
      | Some current =>
          let current_prec := precedence current in
          let stack_prec := precedence top_entry in
          let current_assoc := associativity current in
          Return ((stack_prec >? current_prec)%Z
                  || ((stack_prec =? current_prec)%Z && (current_assoc =? "left")))
      end
  end.

(** The loop of the operator branch:
    [while operator_stack and operator_stack[-1] != '(' and
     self._should_pop_operator(token, operator_stack[-1]):
       output.append(operator_stack.pop())]. *)
Fixpoint pop_higher (token : string) (output operator_stack : list string)
  : result (list string * list string) :=
  match operator_stack with
  | top :: below =>
      if negb (top =? "(") then
        should_pop <- _should_pop_operator token top ;;
        if should_pop : bool then pop_higher token (output ++ [top]) below
        else Return (output, operator_stack)
      else Return (output, operator_stack)
  | [] => Return (output, operator_stack)
  end.

(** The loop of the close-paren branch:
    [while operator_stack and operator_stack[-1] != '(':
       output.append(operator_stack.pop())]. *)
Fixpoint pop_to_paren (output operator_stack : list string)
  : list string * list string :=
  match operator_stack with
  | top :: below =>
      if negb (top =? "(") then pop_to_paren (output ++ [top]) below
      else (output, operator_stack)
  | [] => (output, operator_stack)
  end.

(** The body of [for token in tokens] in [shunting_yard], on the pair
    [(output, operator_stack)]. *)
Definition shunt_token (state : list string * list string) (token : string)
  : result (list string * list string) :=
  let (output, operator_stack) := state in
  if is_number token then Return (output ++ [token], operator_stack)
  else if in_operators token then
    popped <- pop_higher token output operator_stack ;;
    Return (fst popped, token :: snd popped)
  else if token =? "(" then Return (output, token :: operator_stack)
  else if token =? ")" then
    match pop_to_paren output operator_stack with
    | (output', top :: below) =>
        if top =? "(" then Return (output', below)
        else Raise (ValueError UnbalancedParentheses)
    | (_, []) => Raise (ValueError UnbalancedParentheses)
    end
  else Return state.

Fixpoint shunt_tokens (tokens : list string) (state : list string * list string)
  : result (list string * list string) :=
  match tokens with
  | token :: rest => state' <- shunt_token state token ;; shunt_tokens rest state'
  | [] => Return state
  end.

(** The final loop:
    [while operator_stack:
       if operator_stack[-1] in '()': raise ValueError(...)
       output.append(operator_stack.pop())]. *)
Fixpoint pop_all (output operator_stack : list string) : result (list string) :=
  match operator_stack with
  | top :: below =>
      if contains "()" top then Raise (ValueError UnbalancedParentheses)
      else pop_all (output ++ [top]) below
  | [] => Return output
  end.

Definition shunting_yard (expression : string) : result (list string) :=
  let tokens := tokenize expression in
  state <- shunt_tokens tokens ([], []) ;;
  pop_all (fst state) (snd state).

(** The body of [for token in rpn_expression] in [evaluate_rpn].  The test
    [self.is_number(token)] and the conversion [float(token)] that follows it
    are one match on [py_float token]. *)
Definition eval_token (stack : list number) (token : string) : result (list number) :=
  match py_float token with
  | Some x => Return (x :: stack)
  | None =>
      match operators token with
      | Some entry =>
          match stack with
          | op2 :: op1 :: rest =>
              if (token =? "/") && equals_zero op2 then
                Raise (ValueError DivisionByZero)
              else
                match function entry op1 op2 with
                | inr r => Return (r :: rest)
                | inl e => Raise (ArithmeticError e)
                end
          | _ => Raise (ValueError InsufficientOperands)
          end
      | None => Raise (ValueError (UnknownToken token))
      end
  end.

Fixpoint eval_tokens (tokens : list string) (stack : list number)
  : result (list number) :=
  match tokens with
  | token :: rest => stack' <- eval_token stack token ;; eval_tokens rest stack'
  | [] => Return stack
  end.

Definition evaluate_rpn (rpn_expression : list string) : result number :=
  stack <- eval_tokens rpn_expression [] ;;
  match stack with
  | [x] => Return x
  | _ => Raise (ValueError MalformedExpression)
  end.

(** [expression.replace(' ', '')]. *)
Fixpoint remove_spaces (s : string) : string :=
  match s with
  | String c r => if Ascii.eqb c " " then remove_spaces r else String c (remove_spaces r)
  | "" => ""
  end.

Definition calculate (expression : string) : result number :=
  let expression := remove_spaces expression in
  if is_empty expression then Raise (ValueError EmptyExpression)
  else
    rpn <- shunting_yard expression ;;
    evaluate_rpn rpn.

End Calculator.

Arguments Return {num A} a.
Arguments Raise {num A} e.

(* ================================================================= *)
(** ** Infix expressions and their value

    The reference the calculator is compared with: the grammar of infix
    expressions with the standard precedence and associativity, and the value
    of the tree an expression denotes. *)

Inductive binop : Type := Add | Sub | Mul | Div | Pow.

Inductive expr : Type :=
| Literal (l : float_literal)
| Binary (op : binop) (a b : expr).

(** A non-negative decimal literal: digits, optionally followed by a point and
    further digits; it denotes the decimal number it writes. *)
Definition decimal_literal (t : string) : option float_literal :=
  let (int_part, r1) := digits t in
  let (dot, r2) := optional_dot r1 in
  let (frac_part, r3) := digits r2 in
  if negb (is_empty int_part) && is_empty r3 then
    Some (Decimal false (decimal_value 0 (int_part ++ frac_part)%string)
                  (- Z.of_nat (String.length frac_part)))
  else None.

(** The four levels of the grammar, from the loosest to the tightest. *)
Inductive level : Type := Sum | Term | Power | Atom.

(** [parses lv tokens e]: the token sequence is a phrase of level [lv] and
    denotes the tree [e].
    - Sum   ::= Sum + Term | Sum - Term | Term        (left-associative)
    - Term  ::= Term * Power | Term / Power | Power   (left-associative)
    - Power ::= Atom ^ Power | Atom                   (right-associative)
    - Atom  ::= literal | ( Sum ) *)
Inductive parses : level -> list string -> expr -> Prop :=
| parses_literal t l :
    decimal_literal t = Some l -> parses Atom [t] (Literal l)
| parses_parens ts e :
    parses Sum ts e -> parses Atom ("(" :: ts ++ [")"]) e
| parses_atom ts e :
    parses Atom ts e -> parses Power ts e
| parses_pow ts1 ts2 a b :
    parses Atom ts1 a -> parses Power ts2 b ->
    parses Power (ts1 ++ "^" :: ts2) (Binary Pow a b)
| parses_power ts e :
    parses Power ts e -> parses Term ts e
| parses_mul ts1 ts2 a b :
    parses Term ts1 a -> parses Power ts2 b ->
    parses Term (ts1 ++ "*" :: ts2) (Binary Mul a b)
| parses_div ts1 ts2 a b :
    parses Term ts1 a -> parses Power ts2 b ->
    parses Term (ts1 ++ "/" :: ts2) (Binary Div a b)
| parses_term ts e :
    parses Term ts e -> parses Sum ts e
| parses_add ts1 ts2 a b :
    parses Sum ts1 a -> parses Term ts2 b ->
    parses Sum (ts1 ++ "+" :: ts2) (Binary Add a b)
| parses_sub ts1 ts2 a b :
    parses Sum ts1 a -> parses Term ts2 b ->
    parses Sum (ts1 ++ "-" :: ts2) (Binary Sub a b).

(** The text of an expression: its tokens written one after the other. *)
Definition text (tokens : list string) : string := String.concat "" tokens.

Section Value.

Context {num : PyNum}.

Definition lift (r : host_exception + number) : result number :=
  match r with
  | inr x => Return x
  | inl e => Raise (ArithmeticError e)
  end.

(** One operation on two values; a quotient by zero has no value. *)
Definition apply (op : binop) (x y : number) : result number :=
  match op with
  | Add => lift (operator_add x y)
  | Sub => lift (operator_sub x y)
  | Mul => lift (operator_mul x y)
  | Div => if equals_zero y then Raise (ValueError DivisionByZero)
           else lift (operator_truediv x y)
  | Pow => lift (operator_pow x y)
  end.

(** The value of a tree, operands from left to right. *)
Fixpoint value (e : expr) : result number :=
  match e with
  | Literal l => Return (float_of_literal l)
  | Binary op a b =>
      bind (value a) (fun x => bind (value b) (fun y => apply op x y))
  end.

End Value.

(** The token that writes an operation. *)
Definition symbol (op : binop) : string :=
  match op with
  | Add => "+" | Sub => "-" | Mul => "*" | Div => "/" | Pow => "^"
  end.

(* ================================================================= *)
(** ** White space, as the specification words it *)

(** The white-space characters of a Python [str] below code point 256
    ([str.isspace]): tab, LF, VT, FF, CR, the four separators FS, GS, RS, US,
    space, NEL and NBSP. *)
Definition is_whitespace (c : ascii) : bool :=
  ((9 <=? code c)%N && (code c <=? 13)%N)
  || ((28 <=? code c)%N && (code c <=? 32)%N)
  || (code c =? 133)%N || (code c =? 160)%N.

(** The input with every white-space character removed. *)
Fixpoint spec_strip_whitespace (s : string) : string :=
  match s with
  | String c r =>
      if is_whitespace c then spec_strip_whitespace r else String c (spec_strip_whitespace r)
  | "" => ""
  end.

(* ================================================================= *)
(** ** Binary64: the number interface on IEEE 754 double precision

    The interface on Rocq's primitive binary64 floats, used for the worked
    examples.  Addition, subtraction, multiplication and division are the
    hardware operations; [float] rounds the decimal number to the nearest
    double; [operator.pow] follows CPython's [float_pow].  The call of the C
    library's [pow] at the end of [float_pow] is the correctly rounded power
    where the exponent is an integer (the power is then a rational number) and
    the parameter [libm_pow] elsewhere.  A negative base with a non-integral
    exponent gives a complex number in Python; this instance has floats only
    and stops there with [ComplexResult]. *)
Module Binary64.

Inductive arithmetic_exception : Type :=
| ZeroDivisionError
| OverflowError
| ComplexResult.

Definition double : Type := PrimFloat.float.

(** The double nearest to [m * 10^e], for [m > 0]. *)
Definition round_decimal (m e : Z) : double :=
  if (0 <=? e)%Z then SF2Prim (binary_normalize prec emax (m * 10 ^ e) 0 false)
  else SF2Prim (SFdiv prec emax (S754_finite false (Z.to_pos m) 0)
                                (S754_finite false (Z.to_pos (10 ^ (- e))) 0)).

Definition of_literal (l : float_literal) : double :=
  match l with
  | Decimal negative m e =>
      let x := if (m =? 0)%Z then PrimFloat.zero else round_decimal m e in
      if negative then PrimFloat.opp x else x
  | Infinity negative => if negative then PrimFloat.neg_infinity else PrimFloat.infinity
  | NaN _ => PrimFloat.nan
  end.

(** The integer a double is equal to, if any. *)
Definition integer_value (y : double) : option Z :=
  match Prim2SF y with
  | S754_zero _ => Some 0%Z
  | S754_finite s m e =>
      let magnitude :=
        if (0 <=? e)%Z then Some (Z.pos m * 2 ^ e)%Z
        else if (Z.pos m mod 2 ^ (- e) =? 0)%Z then Some (Z.pos m / 2 ^ (- e))%Z
        else None in
      option_map (fun v => if s then (- v)%Z else v) magnitude
  | _ => None
  end.

Definition is_odd_integer (y : double) : bool :=
  match integer_value y with
  | Some n => Z.odd n
  | None => false
  end.

(** The double nearest to [x ^ n], for a finite [x > 0] and [n <> 0]. *)
Definition integer_power (x : double) (n : Z) : double :=
  match Prim2SF x with
  | S754_finite _ m e =>
      if (0 <? n)%Z then
        SF2Prim (binary_normalize prec emax (Z.pos m ^ n) (e * n) false)
      else
        SF2Prim (SFdiv prec emax (S754_finite false 1 0)
                       (S754_finite false (Z.to_pos (Z.pos m ^ (- n))) (e * (- n))))
  | _ => x
  end.

Section Pow.

Variable libm_pow : double -> double -> double.

Definition float_pow (v w : double) : arithmetic_exception + double :=
  let odd := is_odd_integer w in
  if PrimFloat.eqb w PrimFloat.zero then inr PrimFloat.one
  else if PrimFloat.is_nan v then inr v
  else if PrimFloat.is_nan w then
    inr (if PrimFloat.eqb v PrimFloat.one then PrimFloat.one else w)
  else if PrimFloat.is_infinity w then
    let av := PrimFloat.abs v in
    if PrimFloat.eqb av PrimFloat.one then inr PrimFloat.one
    else if Bool.eqb (PrimFloat.ltb PrimFloat.zero w) (PrimFloat.ltb PrimFloat.one av)
         then inr (PrimFloat.abs w)
    else inr PrimFloat.zero
  else if PrimFloat.is_infinity v then
    if PrimFloat.ltb PrimFloat.zero w then inr (if odd then v else PrimFloat.abs v)
    else inr (if odd && PrimFloat.ltb v PrimFloat.zero
              then PrimFloat.neg_zero else PrimFloat.zero)
  else if PrimFloat.eqb v PrimFloat.zero then
    if PrimFloat.ltb w PrimFloat.zero then inl ZeroDivisionError
    else inr (if odd then v else PrimFloat.zero)
  else
    let negative := PrimFloat.ltb v PrimFloat.zero in
    if negative && negb (match integer_value w with Some _ => true | None => false end)
    then inl ComplexResult
    else
      let av := PrimFloat.abs v in
      let negate_result := negative && odd in
      if PrimFloat.eqb av PrimFloat.one then
        inr (if negate_result then PrimFloat.opp PrimFloat.one else PrimFloat.one)
      else
        let ix := match integer_value w with
                  | Some n => integer_power av n
                  | None => libm_pow av w
                  end in
        if PrimFloat.is_infinity ix then inl OverflowError
        else inr (if negate_result then PrimFloat.opp ix else ix).

Definition float_div (v w : double) : arithmetic_exception + double :=
  if PrimFloat.eqb w PrimFloat.zero then inl ZeroDivisionError
  else inr (PrimFloat.div v w).

Definition binary64 : PyNum := {|
  number := double;
  host_exception := arithmetic_exception;
  float_of_literal := of_literal;
  equals_zero := fun x => PrimFloat.eqb x PrimFloat.zero;
  operator_add := fun v w => inr (PrimFloat.add v w);
  operator_sub := fun v w => inr (PrimFloat.sub v w);
  operator_mul := fun v w => inr (PrimFloat.mul v w);
  operator_truediv := float_div;
  operator_pow := float_pow
|}.

End Pow.

(** A closed instance, for statements in which no non-integral power is
    taken: the C library answers NaN. *)
Definition without_libm : PyNum := binary64 (fun _ _ => PrimFloat.nan).

End Binary64.

(* ================================================================= *)
(** ** Auxiliary predicates of the proofs *)

Fixpoint all_chars (p : ascii -> bool) (s : string) : bool :=
  match s with
  | String c r => p c && all_chars p r
  | "" => true
  end.

(** The first character of [s], if any, satisfies [p]. *)
Definition head_is (p : ascii -> bool) (s : string) : bool :=
  match s with
  | String c _ => p c
  | "" => true
  end.

(** A character that can follow a number token without joining it. *)
Definition ends_number (c : ascii) : bool :=
  negb (is_digit c) && negb (Ascii.eqb c ".").

(** The characters of a decimal literal. *)
Definition is_decimal_char (c : ascii) : bool :=
  is_digit c || Ascii.eqb c ".".

(** [clear_end fuel s]: in the scan of [findall] over [s], no number token
    runs up to the end of [s]: the last match, if it reaches the end, is a
    symbol.  Digits (or a point and digits) written after such a text join no
    token of it. *)
Fixpoint clear_end (fuel : nat) (s : string) : bool :=
  match fuel with
  | O => is_empty s
  | S fuel' =>
      match s with
      | "" => true
      | String _ r =>
          match match_token s with
          | Some (token, rest) =>
              if is_empty rest
              then (match token with String c "" => is_symbol c | _ => false end)
              else clear_end fuel' rest
          | None => clear_end fuel' r
          end
      end
  end.

(** A digit written after [before] starts a token: the scan of the tokenizer
    begins a match at it. *)
Definition token_start (before : string) : bool :=
  clear_end (String.length before) before.

(** The last character of [t] is a point. *)
Fixpoint ends_in_point (t : string) : bool :=
  match t with
  | "" => false
  | String c "" => Ascii.eqb c "."
  | String _ r => ends_in_point r
  end.

(** [dropped t s]: [t] is [s] with some of its characters dropped, the others
    kept as they are and in their order. *)
Inductive dropped : string -> string -> Prop :=
| dropped_end : dropped "" ""
| dropped_keep c t s : dropped t s -> dropped (String c t) (String c s)
| dropped_drop c t s : dropped t s -> dropped t (String c s).

(** The tab character, and the string made of it. *)
Definition tab : string := String "009"%char "".

Definition is_symbol_token (t : string) : bool :=
  match t with
  | String c "" => is_symbol c
  | _ => false
  end.

Definition is_literal_token (t : string) : bool :=
  match decimal_literal t with Some _ => true | None => false end.

(** A token sequence the tokenizer reads back from its text: literals and
    symbols, and no literal directly before another literal. *)
Fixpoint lexable (ts : list string) : bool :=
  match ts with
  | [] => true
  | t :: rest =>
      (is_symbol_token t
       || (is_literal_token t
           && match rest with [] => true | u :: _ => is_symbol_token u end))
      && lexable rest
  end.

Definition op_level (op : binop) : level :=
  match op with
  | Add | Sub => Sum
  | Mul | Div => Term
  | Pow => Power
  end.

(** The levels of the two operands of an operation: a left-associative
    operation takes its own level on the left, a right-associative one on the
    right. *)
Definition left_level (op : binop) : level :=
  match op with
  | Add | Sub => Sum
  | Mul | Div => Term
  | Pow => Atom
  end.

Definition right_level (op : binop) : level :=
  match op with
  | Add | Sub => Term
  | Mul | Div => Power
  | Pow => Power
  end.

(** The least precedence of an operator left pending by a phrase of a level. *)
Definition rank (lv : level) : Z :=
  match lv with Sum => 1 | Term => 2 | Power => 3 | Atom => 4 end.

(** The precedences a phrase of a level leaves on the stack below it. *)
Definition bound (lv : level) : Z :=
  match lv with Sum => 1 | Term => 2 | Power => 4 | Atom => 4 end.

Section Invariants.

Context {num : PyNum}.

(** An operator a phrase of level [lv] may leave on the operator stack. *)
Definition pending (lv : level) (s : string) : Prop :=
  exists entry, operators s = Some entry /\ (rank lv <= precedence entry)%Z.

(** A stack a phrase of level [lv] does not pop from: it is empty, or its top
    is an open parenthesis or binds less tightly than the phrase. *)
Definition guard (lv : level) (operator_stack : list string) : Prop :=
  match operator_stack with
  | [] => True
  | top :: _ =>
      top = "(" \/ forall entry, operators top = Some entry ->
                                 (precedence entry < bound lv)%Z
  end.

(** What the operator stack holds, and what the output holds. *)
Definition stackable (s : string) : bool := (s =? "(") || in_operators s.

Definition rpn_token (t : string) : bool := is_number t || in_operators t.

(** The invariant of the converter: the operator stack holds operators and open parentheses, the output holds
    numbers and operators. *)
Definition state_ok (state : list string * list string) : Prop :=
  Forall (fun t => rpn_token t = true) (fst state)
  /\ Forall (fun s => stackable s = true) (snd state).

End Invariants.

(* ================================================================= *)
(** ** Further notions: separators, parentheses, the interactive loop *)

(** A character the token pattern matches nowhere and that cannot stand inside
    a token: not a digit, not a point, not one of the seven symbols. *)
Definition is_separator (c : ascii) : bool :=
  negb (is_digit c) && negb (Ascii.eqb c ".") && negb (is_symbol c).

Definition is_paren (t : string) : bool := (t =? "(") || (t =? ")").

(** The parenthesis characters of a string, in order, each as a token. *)
Fixpoint paren_tokens (s : string) : list string :=
  match s with
  | String c r =>
      if Ascii.eqb c "(" || Ascii.eqb c ")" then String c "" :: paren_tokens r
      else paren_tokens r
  | "" => []
  end.

(** The parentheses of a token sequence match: read from the left, with
    [depth] open ones pending, no close parenthesis comes without an open one
    before it, and none is pending at the end. *)
Fixpoint balanced (depth : nat) (tokens : list string) : bool :=
  match tokens with
  | [] => Nat.eqb depth 0
  | t :: rest =>
      if t =? "(" then balanced (S depth) rest
      else if t =? ")" then
        match depth with
        | O => false
        | S d => balanced d rest
        end
      else balanced depth rest
  end.

(** The number of open parentheses on a stack. *)
Definition opens (stk : list string) : nat := count_occ string_dec stk "(".

(** The operators of a stack, its open parentheses left out. *)
Definition without_open (stk : list string) : list string :=
  filter (fun s => negb (s =? "(")) stk.

(** [str.strip()]: the white space at both ends removed. *)
Fixpoint lstrip_space (s : string) : string :=
  match s with
  | String c r => if is_whitespace c then lstrip_space r else s
  | "" => ""
  end.

Fixpoint rstrip_space (s : string) : string :=
  match s with
  | "" => ""
  | String c r =>
      match rstrip_space r with
      | "" => if is_whitespace c then "" else String c ""
      | r' => String c r'
      end
  end.

Definition strip (s : string) : string := rstrip_space (lstrip_space s).

(** [str.lower()] on the code points below 256: the letters A-Z and the
    capital letters of Latin-1 (all of 192-222 but the multiplication sign). *)
Definition lower_char (c : ascii) : ascii :=
  if ((65 <=? code c)%N && (code c <=? 90)%N)
     || ((192 <=? code c)%N && (code c <=? 222)%N && negb (code c =? 215)%N)
  then ascii_of_N (code c + 32) else c.

Fixpoint lower (s : string) : string :=
  match s with
  | String c r => String (lower_char c) (lower r)
  | "" => ""
  end.

(** What [input] gives the loop of [main]: a line, or a [KeyboardInterrupt];
    at the end of the list the input is exhausted and [input] raises
    [EOFError]. *)
Inductive input : Type :=
| Line (s : string)
| KeyboardInterrupt.

Section Main.

Context {num : PyNum}.

(** What [main] prints, one constructor per [print] (and per prompt of
    [input]), with the part of the text that is not fixed: the banner of three
    lines, the prompt, "RPN: ..." with the tokens joined by spaces,
    "Результат: ..." with the number, "Ошибка: ..." with the [ValueError],
    "Неожиданная ошибка: ..." with any other exception, and the farewell. *)
Inductive output : Type :=
| Banner
| Prompt
| RPNLine (rpn : string)
| ResultLine (x : number)
| ErrorLine (kind : error_kind)
| UnexpectedLine (e : exception)
| Farewell.

(** The handlers of the [try] statement for an exception raised in its body:
    [except ValueError] first, [except Exception] for the others. *)
Definition report (e : exception) : list output :=
  match e with
  | ValueError kind => [ErrorLine kind]
  | _ => [UnexpectedLine e]
  end.

(** [expression.lower() in ['quit', 'exit', 'q']]. *)
Definition is_quit (expression : string) : bool :=
  existsb (String.eqb (lower expression)) ["quit"; "exit"; "q"].

(** The body of the loop after the quit test and the test for an empty line:
    [calculate], then [shunting_yard] on the same string, then the two
    prints. *)
Definition answer (expression : string) : list output :=
  match calculate expression with
  | Raise e => report e
  | Return result =>
      match shunting_yard expression with
      | Raise e => report e
      | Return rpn => [RPNLine (String.concat " " rpn); ResultLine result]
      end
  end.

Fixpoint loop (inputs : list input) : list output :=
  match inputs with
  | [] => [Prompt; Farewell]
  | KeyboardInterrupt :: _ => [Prompt; Farewell]
  | Line s :: rest =>
      let expression := strip s in
      if is_quit expression then [Prompt]
      else if is_empty expression then Prompt :: loop rest
      else Prompt :: answer expression ++ loop rest
  end.

Definition main (inputs : list input) : list output := Banner :: loop inputs.

End Main.

(* ================================================================= *)
(** * Properties *)

(** ** Characters *)

Ltac ascii_cases c := destruct c as [[] [] [] [] [] [] [] []].

Lemma digit_not_symbol c : is_digit c = true -> is_symbol c = false.
Proof. ascii_cases c; intros H; try reflexivity; discriminate H. Qed.

Lemma symbol_ends_number c : is_symbol c = true -> ends_number c = true.
Proof. ascii_cases c; intros H; try reflexivity; discriminate H. Qed.

Lemma symbol_not_space c : is_symbol c = true -> Ascii.eqb c " " = false.
Proof. ascii_cases c; intros H; try reflexivity; discriminate H. Qed.

Lemma decimal_char_plain c :
  is_decimal_char c = true ->
  Ascii.eqb c "_" = false /\ float_space c = false /\ Ascii.eqb c " " = false.
Proof. ascii_cases c; intros H; try discriminate H; repeat split. Qed.

Lemma digit_facts c :
  is_digit c = true ->
  to_lower c = c /\ Ascii.eqb c "-" = false /\ Ascii.eqb c "+" = false
  /\ Ascii.eqb c "i" = false /\ Ascii.eqb c "n" = false
  /\ Ascii.eqb c "." = false.
Proof. ascii_cases c; intros H; try discriminate H; repeat split. Qed.

(** ** Strings *)

Lemma append_empty_r s : (s ++ "")%string = s.
Proof. induction s as [|c s IH]; simpl; [reflexivity | now rewrite IH]. Qed.

Lemma append_assoc' s1 s2 s3 :
  ((s1 ++ s2) ++ s3)%string = (s1 ++ (s2 ++ s3))%string.
Proof. induction s1 as [|c s1 IH]; simpl; [reflexivity | now rewrite IH]. Qed.

Lemma length_append s1 s2 :
  String.length (s1 ++ s2)%string = String.length s1 + String.length s2.
Proof. induction s1 as [|c s1 IH]; simpl; [reflexivity | now rewrite IH]. Qed.

Lemma all_chars_append p s1 s2 :
  all_chars p (s1 ++ s2)%string = all_chars p s1 && all_chars p s2.
Proof.
  induction s1 as [|c s1 IH]; simpl; [reflexivity|].
  now rewrite IH, andb_assoc.
Qed.

Lemma all_chars_weaken (p q : ascii -> bool) s :
  (forall c, p c = true -> q c = true) ->
  all_chars p s = true -> all_chars q s = true.
Proof.
  intros Hpq. induction s as [|c s IH]; simpl; [reflexivity|].
  intros [Hc Hs]%andb_prop. now rewrite (Hpq _ Hc), IH.
Qed.

Lemma text_cons t ts : text (t :: ts) = (t ++ text ts)%string.
Proof.
  unfold text. destruct ts as [|u ts]; simpl.
  - now rewrite append_empty_r.
  - reflexivity.
Qed.

(** ** The greedy digit run *)

Lemma digits_spec s d r :
  digits s = (d, r) ->
  s = (d ++ r)%string /\ all_chars is_digit d = true
  /\ head_is (fun c => negb (is_digit c)) r = true.
Proof.
  revert d r. induction s as [|c s IH]; simpl; intros d r H.
  - injection H as <- <-. now repeat split.
  - destruct (is_digit c) eqn:Hc.
    + destruct (digits s) as [d' r'] eqn:Hd. injection H as <- <-.
      destruct (IH _ _ eq_refl) as (-> & Hall & Hhead).
      simpl. now rewrite Hc, Hall.
    + injection H as <- <-. simpl. now rewrite Hc.
Qed.

Lemma digits_append s d r x :
  digits s = (d, r) ->
  head_is (fun c => negb (is_digit c)) x = true ->
  digits (s ++ x)%string = (d, (r ++ x)%string).
Proof.
  intros H Hx. revert d r H. induction s as [|c s IH]; simpl; intros d r H.
  - injection H as <- <-. destruct x as [|c x]; simpl in *; [reflexivity|].
    apply negb_true_iff in Hx. now rewrite Hx.
  - destruct (is_digit c) eqn:Hc.
    + destruct (digits s) as [d' r'] eqn:Hd. injection H as <- <-.
      now rewrite (IH _ _ eq_refl).
    + now injection H as <- <-.
Qed.

Lemma digits_all s : all_chars is_digit s = true -> digits s = (s, "").
Proof.
  induction s as [|c s IH]; simpl; [reflexivity|].
  intros [Hc Hs]%andb_prop. now rewrite Hc, IH.
Qed.

Lemma digits_stop s :
  head_is (fun c => negb (is_digit c)) s = true -> digits s = ("", s).
Proof.
  destruct s as [|c s]; simpl; [reflexivity|].
  intros Hc%negb_true_iff. now rewrite Hc.
Qed.

(** ** Decimal literals *)

Lemma optional_dot_spec s dot r :
  optional_dot s = (dot, r) ->
  dot = "." /\ s = String "." r
  \/ dot = "" /\ r = s /\ head_is (fun c => negb (Ascii.eqb c ".")) s = true.
Proof.
  unfold optional_dot. destruct s as [|c s].
  - intros [= <- <-]. now right.
  - destruct (Ascii.eqb_spec c ".") as [->|Hc].
    + intros [= <- <-]. now left.
    + intros H. right.
      assert (Hd : (dot, r) = ("", String c s)).
      { revert H. ascii_cases c; intros [= <- <-]; try reflexivity;
          now contradiction Hc. }
      injection Hd as -> ->. repeat split. simpl.
      now apply negb_true_iff, Ascii.eqb_neq.
Qed.

(** The shape of a decimal literal: a non-empty digit run, then nothing, or a
    point and a digit run. *)
Lemma decimal_literal_shape t l :
  decimal_literal t = Some l ->
  exists int_part dot frac_part,
    t = (int_part ++ dot ++ frac_part)%string
    /\ int_part <> "" /\ all_chars is_digit int_part = true
    /\ all_chars is_digit frac_part = true
    /\ (dot = "." \/ dot = "" /\ frac_part = "")
    /\ l = Decimal false (decimal_value 0 (int_part ++ frac_part)%string)
                   (- Z.of_nat (String.length frac_part)).
Proof.
  unfold decimal_literal.
  destruct (digits t) as [i r1] eqn:Hi.
  destruct (optional_dot r1) as [dot r2] eqn:Hdot.
  destruct (digits r2) as [f r3] eqn:Hf.
  destruct (negb (is_empty i) && is_empty r3) eqn:Hok; [|discriminate].
  intros [= <-]. apply andb_prop in Hok as [Hne He].
  destruct r3; [|discriminate He].
  destruct (digits_spec _ _ _ Hi) as (-> & Hai & Hh1).
  destruct (digits_spec _ _ _ Hf) as (Hr2 & Haf & _).
  rewrite append_empty_r in Hr2. subst r2.
  assert (Hi0 : i <> "") by (intros ->; discriminate Hne).
  exists i, dot, f.
  destruct (optional_dot_spec _ _ _ Hdot) as [[-> ->]|(-> & -> & _)].
  - repeat split; trivial. now left.
  - assert (r1 = "") as ->.
    { destruct r1 as [|c r1]; [reflexivity|]. simpl in Hh1, Haf.
      apply andb_prop in Haf as [Hc _]. now rewrite Hc in Hh1. }
    repeat split; trivial. now right.
Qed.

Lemma decimal_literal_chars t l :
  decimal_literal t = Some l ->
  all_chars is_decimal_char t = true /\ head_is is_digit t = true /\ t <> "".
Proof.
  intros (i & dot & f & -> & Hi & Hai & Haf & Hdot & _)%decimal_literal_shape.
  assert (Hw : forall s, all_chars is_digit s = true ->
                         all_chars is_decimal_char s = true).
  { intros s. apply all_chars_weaken. intros c Hc. unfold is_decimal_char.
    now rewrite Hc. }
  split; [|split].
  - rewrite !all_chars_append, (Hw _ Hai), (Hw _ Haf).
    destruct Hdot as [->|[-> _]]; reflexivity.
  - destruct i as [|c i]; [contradiction|]. simpl in *.
    now apply andb_prop in Hai as [-> _].
  - destruct i; [contradiction | discriminate].
Qed.

(** ** [float] on decimal literals *)

Lemma remove_underscores_plain prev s :
  Ascii.eqb prev "_" = false ->
  all_chars is_decimal_char s = true ->
  remove_underscores prev s = Some s.
Proof.
  revert prev. induction s as [|c s IH]; simpl; intros prev Hp Hs.
  - now rewrite Hp.
  - apply andb_prop in Hs as [Hc Hs].
    destruct (decimal_char_plain _ Hc) as (Hu & _).
    now rewrite Hu, Hp, (IH c Hu Hs).
Qed.

Lemma lstrip_head s :
  head_is (fun c => negb (float_space c)) s = true -> lstrip s = s.
Proof.
  destruct s as [|c s]; simpl; [reflexivity|].
  intros Hc%negb_true_iff. now rewrite Hc.
Qed.

Lemma rstrip_plain s :
  all_chars (fun c => negb (float_space c)) s = true -> rstrip s = s.
Proof.
  induction s as [|c s IH]; simpl; [reflexivity|].
  intros [Hc%negb_true_iff Hs]%andb_prop. rewrite (IH Hs), Hc.
  now destruct s.
Qed.

Lemma sign_digit c r :
  is_digit c = true -> sign (String c r) = (false, String c r).
Proof. ascii_cases c; intros H; try discriminate H; reflexivity. Qed.

Lemma parse_float_body_decimal t l :
  decimal_literal t = Some l -> parse_float_body t = Some l.
Proof.
  intros H. destruct (decimal_literal_chars _ _ H) as (_ & Hhead & Hne).
  revert H. unfold decimal_literal, parse_float_body.
  destruct t as [|c t]; [contradiction|]. simpl in Hhead.
  rewrite (sign_digit _ _ Hhead).
  destruct (digit_facts _ Hhead) as (Hlow & _ & _ & Hi & Hn & _).
  cbn [lowercase String.eqb]. rewrite Hlow, Hi, Hn. cbn [andb orb].
  destruct (digits (String c t)) as [i r1] eqn:Hd1.
  destruct (optional_dot r1) as [dot r2] eqn:Hdot.
  destruct (digits r2) as [f r3] eqn:Hd2.
  destruct (negb (is_empty i) && is_empty r3) eqn:Hok; [|discriminate].
  apply andb_prop in Hok as [Hi0%negb_true_iff He].
  destruct r3; [|discriminate He]. intros [= <-].
  destruct (optional_dot_spec _ _ _ Hdot) as [[-> ->]|(-> & -> & _)].
  - cbn [is_empty]. rewrite Hi0. cbn [andb parse_exponent].
    now rewrite Z.sub_0_l.
  - cbn [is_empty].
    destruct (digits_spec _ _ _ Hd1) as (_ & _ & Hh).
    rewrite (digits_stop _ Hh) in Hd2. injection Hd2 as <- ->.
    rewrite Hi0. reflexivity.
Qed.

Lemma parse_float_decimal t l :
  decimal_literal t = Some l -> parse_float t = Some l.
Proof.
  intros H. destruct (decimal_literal_chars _ _ H) as (Hall & Hhead & _).
  unfold parse_float.
  rewrite (remove_underscores_plain "000" t eq_refl Hall).
  rewrite lstrip_head.
  - rewrite rstrip_plain; [now apply parse_float_body_decimal|].
    revert Hall. apply all_chars_weaken.
    intros c Hc. now destruct (decimal_char_plain _ Hc) as (_ & -> & _).
  - destruct t as [|c t]; [reflexivity|]. simpl in *.
    apply andb_prop in Hall as [Hc _].
    now destruct (decimal_char_plain _ Hc) as (_ & -> & _).
Qed.

(** ** The tokenizer *)

Lemma match_number_spec s token rest :
  match_number s = Some (token, rest) ->
  s = (token ++ rest)%string /\ token <> ""
  /\ head_is is_digit token = true
  /\ all_chars is_decimal_char token = true.
Proof.
  unfold match_number.
  destruct (digits s) as [i s1] eqn:Hi.
  destruct (is_empty i) eqn:Hne; [discriminate|].
  destruct (optional_dot s1) as [dot s2] eqn:Hdot.
  destruct (digits s2) as [f s3] eqn:Hf.
  intros [= <- <-].
  destruct (digits_spec _ _ _ Hi) as (-> & Hai & _).
  destruct (digits_spec _ _ _ Hf) as (-> & Haf & _).
  assert (Hw : forall u, all_chars is_digit u = true ->
                         all_chars is_decimal_char u = true).
  { intros u. apply all_chars_weaken. intros c Hc. unfold is_decimal_char.
    now rewrite Hc. }
  assert (Hs1 : s1 = (dot ++ f ++ s3)%string /\ all_chars is_decimal_char dot = true).
  { destruct (optional_dot_spec _ _ _ Hdot) as [[-> ->]|(-> & <- & _)]; now split. }
  destruct Hs1 as [-> Hd].
  repeat split.
  - now rewrite !append_assoc'.
  - destruct i; [discriminate Hne | discriminate].
  - destruct i as [|c i]; [discriminate Hne|]. simpl in *.
    now apply andb_prop in Hai as [-> _].
  - now rewrite !all_chars_append, (Hw _ Hai), (Hw _ Haf), Hd.
Qed.

Lemma match_token_shorter s token rest :
  match_token s = Some (token, rest) -> String.length rest < String.length s.
Proof.
  unfold match_token. destruct (match_number s) as [[t r]|] eqn:Hn.
  - intros [= <- <-]. destruct (match_number_spec _ _ _ Hn) as (-> & Hne & _).
    rewrite length_append. destruct t; [contradiction | simpl; lia].
  - unfold match_symbol. destruct s as [|c s]; [discriminate|].
    destruct (is_symbol c); [|discriminate]. intros [= <- <-]. simpl. lia.
Qed.

(** Fuel beyond the length of the input changes nothing: [tokenize] scans its
    whole input. *)
Lemma findall_fuel n m s :
  String.length s <= n -> String.length s <= m -> findall n s = findall m s.
Proof.
  revert m s. induction n as [|n IH]; intros m s Hn Hm.
  - destruct s; [|simpl in Hn; lia]. now destruct m.
  - destruct s as [|c s]; [now destruct m|].
    destruct m as [|m]; [simpl in Hm; lia|]. simpl in Hn, Hm.
    cbn [findall].
    destruct (match_token (String c s)) as [[t r]|] eqn:Ht.
    + apply match_token_shorter in Ht. simpl in Ht.
      f_equal. apply IH; lia.
    + apply IH; lia.
Qed.



Lemma findall_token n s token rest :
  match_token s = Some (token, rest) ->
  String.length s <= n ->
  findall n s = token :: tokenize rest.
Proof.
  intros Ht Hn. pose proof (match_token_shorter _ _ _ Ht) as Hlt.
  destruct n as [|n]; [lia|]. destruct s as [|c s]; [simpl in Hlt; lia|].
  cbn [findall]. rewrite Ht. f_equal. unfold tokenize.
  simpl in Hn, Hlt. apply findall_fuel; lia.
Qed.

Lemma match_token_symbol c r :
  is_symbol c = true -> match_token (String c r) = Some (String c "", r).
Proof.
  intros Hc. unfold match_token, match_number. simpl.
  destruct (is_digit c) eqn:Hd.
  - apply digit_not_symbol in Hd. congruence.
  - simpl. now rewrite Hc.
Qed.

Lemma match_number_decimal t l x :
  decimal_literal t = Some l ->
  head_is ends_number x = true ->
  match_number (t ++ x)%string = Some (t, x).
Proof.
  intros (i & dot & f & -> & Hi & Hai & Haf & Hdot & _)%decimal_literal_shape Hx.
  assert (Hxd : head_is (fun c => negb (is_digit c)) x = true).
  { destruct x as [|c x]; [reflexivity|]. simpl in *.
    unfold ends_number in Hx. now apply andb_prop in Hx as [-> _]. }
  unfold match_number.
  rewrite !append_assoc'.
  assert (Hd1 : digits (i ++ dot ++ f ++ x)%string = (i, (dot ++ f ++ x)%string)).
  { apply (digits_append i i "" (dot ++ f ++ x)%string (digits_all _ Hai)).
    destruct Hdot as [->|[-> ->]]; [reflexivity | exact Hxd]. }
  rewrite Hd1.
  destruct i as [|c i]; [contradiction|]. cbn [is_empty].
  destruct Hdot as [->|[-> ->]].
  - cbn [optional_dot append].
    rewrite (digits_append f f "" x (digits_all _ Haf) Hxd). reflexivity.
  - cbn [append].
    assert (Hod : optional_dot x = ("", x)).
    { destruct x as [|d x]; [reflexivity|]. simpl in Hx. unfold ends_number in Hx.
      apply andb_prop in Hx as [_ Hdd%negb_true_iff]. revert Hdd.
      unfold optional_dot. ascii_cases d; intros Hdd; try reflexivity; discriminate Hdd. }
    rewrite Hod, (digits_stop _ Hxd). now rewrite !append_empty_r.
Qed.

Lemma symbol_token_inv t :
  is_symbol_token t = true -> exists c, t = String c "" /\ is_symbol c = true.
Proof.
  destruct t as [|c [|d t]]; try discriminate. intros H. now exists c.
Qed.

(** The tokenizer reads a lexable sequence back from its text. *)
Lemma tokenize_text ts : lexable ts = true -> tokenize (text ts) = ts.
Proof.
  induction ts as [|t ts IH]; [reflexivity|].
  cbn [lexable]. intros [Ht Hts]%andb_prop. rewrite text_cons.
  specialize (IH Hts). unfold tokenize at 1.
  apply orb_prop in Ht as [Hsym|[Hlit Hnext]%andb_prop].
  - destruct (symbol_token_inv _ Hsym) as (c & -> & Hc).
    cbn [append]. rewrite (findall_token _ _ _ _ (match_token_symbol c _ Hc) (le_n _)).
    now rewrite IH.
  - unfold is_literal_token in Hlit.
    destruct (decimal_literal t) as [l|] eqn:Hl; [|discriminate].
    assert (Hx : head_is ends_number (text ts) = true).
    { destruct ts as [|u ts]; [reflexivity|].
      destruct (symbol_token_inv _ Hnext) as (c & -> & Hc).
      rewrite text_cons. simpl. now apply symbol_ends_number. }
    assert (Hm : match_token (t ++ text ts)%string = Some (t, text ts)).
    { unfold match_token. now rewrite (match_number_decimal _ _ _ Hl Hx). }
    rewrite (findall_token _ _ _ _ Hm (le_n _)). now rewrite IH.
Qed.

(** ** The operator table *)

Section CalculatorFacts.

Context {num : PyNum}.

Lemma operators_symbol op : exists entry,
  operators (symbol op) = Some entry
  /\ precedence entry = rank (op_level op)
  /\ associativity entry = (match op with Pow => "right" | _ => "left" end)
  /\ function entry = match op with
                      | Add => operator_add | Sub => operator_sub
                      | Mul => operator_mul | Div => operator_truediv
                      | Pow => operator_pow
                      end.
Proof. destruct op; eexists; repeat split. Qed.

Lemma operators_inv s entry :
  operators s = Some entry ->
  exists op, s = symbol op
             /\ precedence entry = rank (op_level op)
             /\ associativity entry = (match op with Pow => "right" | _ => "left" end).
Proof.
  unfold operators.
  destruct (String.eqb_spec s "+") as [->|_]; [intros [= <-]; now exists Add|].
  destruct (String.eqb_spec s "-") as [->|_]; [intros [= <-]; now exists Sub|].
  destruct (String.eqb_spec s "*") as [->|_]; [intros [= <-]; now exists Mul|].
  destruct (String.eqb_spec s "/") as [->|_]; [intros [= <-]; now exists Div|].
  destruct (String.eqb_spec s "^") as [->|_]; [intros [= <-]; now exists Pow|].
  discriminate.
Qed.

Lemma in_operators_inv s : in_operators s = true -> exists op, s = symbol op.
Proof.
  unfold in_operators. destruct (operators s) as [entry|] eqn:H; [|discriminate].
  intros _. destruct (operators_inv _ _ H) as (op & -> & _). now exists op.
Qed.

Lemma symbol_facts op :
  is_number (symbol op) = false /\ in_operators (symbol op) = true
  /\ (symbol op =? "(") = false /\ contains "()" (symbol op) = false
  /\ is_symbol_token (symbol op) = true.
Proof. destruct op; repeat split. Qed.

Lemma paren_facts :
  is_number "(" = false /\ in_operators "(" = false
  /\ is_number ")" = false /\ in_operators ")" = false.
Proof. repeat split. Qed.

Lemma pending_operator lv s : pending lv s -> exists op, s = symbol op.
Proof.
  intros (entry & H & _). destruct (operators_inv _ _ H) as (op & -> & _).
  now exists op.
Qed.

Lemma pending_weaken lv lv' s :
  (rank lv' <= rank lv)%Z -> pending lv s -> pending lv' s.
Proof. intros Hle (entry & H & Hr). exists entry. split; [assumption | lia]. Qed.


Lemma guard_weaken lv lv' stk :
  (bound lv <= bound lv')%Z -> guard lv stk -> guard lv' stk.
Proof.
  intros Hle. destruct stk as [|top stk]; [trivial|].
  intros [->|H]; [now left | right]. intros entry He. specialize (H _ He). lia.
Qed.

(** ** The converter *)

Lemma shunt_tokens_app ts1 ts2 state :
  shunt_tokens (ts1 ++ ts2) state
  = bind (shunt_tokens ts1 state) (shunt_tokens ts2).
Proof.
  revert state. induction ts1 as [|t ts1 IH]; intros state; [reflexivity|].
  simpl. destruct (shunt_token state t); simpl; [apply IH | reflexivity].
Qed.

(** The loop of the operator branch moves every operator it should pop and
    stops at the first it should not. *)
Lemma pop_higher_pops token output popped below :
  Forall (fun s => (s =? "(") = false
                   /\ _should_pop_operator token s = Return true) popped ->
  match below with
  | [] => True
  | top :: _ => top = "(" \/ _should_pop_operator token top = Return false
  end ->
  pop_higher token output (popped ++ below) = Return (output ++ popped, below).
Proof.
  intros Hp Hb. revert output. induction Hp as [|s popped [Hs1 Hs2] _ IH]; intros output.
  - simpl. rewrite app_nil_r. destruct below as [|top below]; [reflexivity|].
    cbn [pop_higher]. destruct Hb as [->|Hb]; [reflexivity|].
    destruct (negb (top =? "(")); [|reflexivity]. now rewrite Hb.
  - cbn [app pop_higher]. rewrite Hs1, Hs2. cbn [negb bind].
    rewrite IH. now rewrite <- app_assoc.
Qed.

Lemma should_pop_pending op s :
  pending (left_level op) s ->
  (s =? "(") = false /\ _should_pop_operator (symbol op) s = Return true.
Proof.
  intros (entry & H & Hr).
  destruct (operators_inv _ _ H) as (op' & -> & Hp & _).
  destruct (symbol_facts op') as (_ & _ & Hparen & _). split; [assumption|].
  unfold _should_pop_operator. rewrite H.
  destruct (operators_symbol op) as (e & -> & Hpe & Hae & _).
  rewrite Hp in *. rewrite Hpe, Hae.
  destruct op, op'; simpl in Hr; try lia; reflexivity.
Qed.

Lemma should_pop_guard op stk :
  guard (op_level op) stk ->
  match stk with
  | [] => True
  | top :: _ => top = "(" \/ _should_pop_operator (symbol op) top = Return false
  end.
Proof.
  destruct stk as [|top stk]; [trivial|]. intros [->|H]; [now left | right].
  unfold _should_pop_operator. destruct (operators top) as [entry|] eqn:He; [|reflexivity].
  specialize (H _ eq_refl).
  destruct (operators_inv _ _ He) as (op' & -> & Hp & _).
  destruct (operators_symbol op) as (e & -> & Hpe & Hae & _).
  rewrite Hp in *. rewrite Hpe, Hae.
  destruct op, op'; simpl in H; try lia; reflexivity.
Qed.

(** An operator token pops what the left operand left pending and takes its
    place on the stack. *)
Lemma shunt_token_binop op output popped below :
  Forall (pending (left_level op)) popped ->
  guard (op_level op) below ->
  shunt_token (output, popped ++ below) (symbol op)
  = Return (output ++ popped, symbol op :: below).
Proof.
  intros Hp Hg. unfold shunt_token.
  destruct (symbol_facts op) as (-> & -> & _).
  rewrite (pop_higher_pops (symbol op) output popped below).
  - reflexivity.
  - revert Hp. apply Forall_impl. intros s. apply should_pop_pending.
  - now apply should_pop_guard.
Qed.

Lemma pop_to_paren_pending lv output popped below :
  Forall (pending lv) popped ->
  pop_to_paren output (popped ++ "(" :: below) = (output ++ popped, "(" :: below).
Proof.
  intros Hp. revert output. induction Hp as [|s popped Hs _ IH]; intros output.
  - simpl. now rewrite app_nil_r.
  - destruct (pending_operator _ _ Hs) as (op & ->).
    destruct (symbol_facts op) as (_ & _ & Hparen & _).
    cbn [app pop_to_paren]. rewrite Hparen. cbn [negb].
    rewrite IH. now rewrite <- app_assoc.
Qed.

Lemma pop_all_pending lv output popped :
  Forall (pending lv) popped -> pop_all output popped = Return (output ++ popped).
Proof.
  intros Hp. revert output. induction Hp as [|s popped Hs _ IH]; intros output.
  - simpl. now rewrite app_nil_r.
  - destruct (pending_operator _ _ Hs) as (op & ->).
    destruct (symbol_facts op) as (_ & _ & _ & Hc & _).
    cbn [pop_all]. rewrite Hc, IH. now rewrite <- app_assoc.
Qed.

(** ** The evaluator *)

Lemma eval_tokens_app ts1 ts2 stack :
  eval_tokens (ts1 ++ ts2) stack = bind (eval_tokens ts1 stack) (eval_tokens ts2).
Proof.
  revert stack. induction ts1 as [|t ts1 IH]; intros stack; [reflexivity|].
  simpl. destruct (eval_token stack t); simpl; [apply IH | reflexivity].
Qed.

Lemma eval_token_binop op x y stack :
  eval_token (y :: x :: stack) (symbol op)
  = bind (apply op x y) (fun r => Return (r :: stack)).
Proof.
  destruct op; cbn; try (destruct (equals_zero y); [reflexivity|]);
    match goal with |- context [match ?f x y with _ => _ end] =>
      destruct (f x y); reflexivity end.
Qed.

Lemma py_float_decimal t l :
  decimal_literal t = Some l -> py_float t = Some (float_of_literal l).
Proof. intros H. unfold py_float. now rewrite (parse_float_decimal _ _ H). Qed.

End CalculatorFacts.

(** ** Grammatical token sequences *)

Lemma lexable_literal t l rest :
  decimal_literal t = Some l ->
  match rest with [] => True | u :: _ => is_symbol_token u = true end ->
  lexable rest = true ->
  lexable (t :: rest) = true.
Proof.
  intros Hl Hn Hr. cbn [lexable]. unfold is_literal_token. rewrite Hl, Hr.
  destruct rest as [|u rest]; [|rewrite Hn]; now rewrite orb_true_r.
Qed.

Lemma lexable_symbol c rest :
  is_symbol c = true -> lexable rest = true -> lexable (String c "" :: rest) = true.
Proof. intros Hc Hr. cbn [lexable is_symbol_token]. now rewrite Hc, Hr. Qed.

(** A phrase followed by nothing or by a symbol is lexable, and it is not
    empty. *)
Lemma parses_lexable lv ts e :
  parses lv ts e ->
  ts <> []
  /\ forall rest,
       match rest with [] => True | u :: _ => is_symbol_token u = true end ->
       lexable rest = true ->
       lexable (ts ++ rest) = true.
Proof.
  assert (Hbin : forall ts1 ts2 c,
            is_symbol c = true ->
            (forall rest,
               match rest with [] => True | u :: _ => is_symbol_token u = true end ->
               lexable rest = true -> lexable (ts1 ++ rest) = true) ->
            (forall rest,
               match rest with [] => True | u :: _ => is_symbol_token u = true end ->
               lexable rest = true -> lexable (ts2 ++ rest) = true) ->
            forall rest,
              match rest with [] => True | u :: _ => is_symbol_token u = true end ->
              lexable rest = true ->
              lexable ((ts1 ++ String c "" :: ts2) ++ rest) = true).
  { intros ts1 ts2 c Hc H1 H2 rest Hn Hr. rewrite <- app_assoc. cbn [app].
    apply H1; [exact Hc|]. apply lexable_symbol; [exact Hc|]. now apply H2. }
  induction 1 as [t l Hl | ts e _ [_ IH] | ts e _ IH
                  | ts1 ts2 a b _ [_ IH1] _ [_ IH2] | ts e _ IH
                  | ts1 ts2 a b _ [_ IH1] _ [_ IH2]
                  | ts1 ts2 a b _ [_ IH1] _ [_ IH2] | ts e _ IH
                  | ts1 ts2 a b _ [_ IH1] _ [_ IH2]
                  | ts1 ts2 a b _ [_ IH1] _ [_ IH2]];
    try exact IH;
    try (split; [now destruct ts1 | now apply Hbin]).
  - split; [discriminate|]. intros rest Hn Hr. now apply (lexable_literal t l).
  - split; [discriminate|]. intros rest Hn Hr. cbn [app].
    apply (lexable_symbol "("); [reflexivity|].
    rewrite <- app_assoc. apply IH; [reflexivity|].
    now apply (lexable_symbol ")").
Qed.

Lemma remove_spaces_plain s :
  all_chars (fun c => negb (Ascii.eqb c " ")) s = true -> remove_spaces s = s.
Proof.
  induction s as [|c s IH]; simpl; [reflexivity|].
  intros [Hc%negb_true_iff Hs]%andb_prop. now rewrite Hc, IH.
Qed.

Lemma lexable_no_space ts :
  lexable ts = true ->
  all_chars (fun c => negb (Ascii.eqb c " ")) (text ts) = true.
Proof.
  induction ts as [|t ts IH]; [reflexivity|].
  cbn [lexable]. intros [Ht Hts]%andb_prop.
  rewrite text_cons, all_chars_append, (IH Hts), andb_true_r.
  apply orb_prop in Ht as [Hsym|[Hlit _]%andb_prop].
  - destruct (symbol_token_inv _ Hsym) as (c & -> & Hc). simpl.
    now rewrite (symbol_not_space _ Hc).
  - unfold is_literal_token in Hlit.
    destruct (decimal_literal t) as [l|] eqn:Hl; [|discriminate].
    destruct (decimal_literal_chars _ _ Hl) as (Hall & _).
    revert Hall. apply all_chars_weaken. intros c Hc.
    now destruct (decimal_char_plain _ Hc) as (_ & _ & ->).
Qed.

Lemma lexable_text_nonempty ts :
  lexable ts = true -> ts <> [] -> is_empty (text ts) = false.
Proof.
  destruct ts as [|t ts]; [contradiction|]. intros H _. rewrite text_cons.
  cbn [lexable] in H. apply andb_prop in H as [Ht _].
  apply orb_prop in Ht as [Hsym|[Hlit _]%andb_prop].
  - now destruct (symbol_token_inv _ Hsym) as (c & -> & _).
  - unfold is_literal_token in Hlit.
    destruct (decimal_literal t) as [l|] eqn:Hl; [|discriminate].
    destruct (decimal_literal_chars _ _ Hl) as (_ & _ & Hne).
    destruct t; [contradiction | reflexivity].
Qed.

(** ** The converter and the evaluator on a phrase *)

Section Correctness.

Context {num : PyNum}.

(** A phrase of level [lv] moves to the output a sequence [out] and leaves on
    the stack, above what was there, the operators [left]; the evaluator run on
    [out] followed by [left] pushes the value of the phrase. *)
Lemma parses_shunt lv ts e :
  parses lv ts e ->
  exists out left,
    Forall (pending lv) left
    /\ (forall output stk,
          guard lv stk ->
          shunt_tokens ts (output, stk) = Return (output ++ out, left ++ stk))
    /\ (forall stack,
          eval_tokens (out ++ left) stack
          = bind (value e) (fun x => Return (x :: stack))).
Proof.
  assert (Hbin : forall op ts1 ts2 a b,
    (exists out left,
        Forall (pending (left_level op)) left
        /\ (forall output stk, guard (left_level op) stk ->
              shunt_tokens ts1 (output, stk) = Return (output ++ out, left ++ stk))
        /\ (forall stack, eval_tokens (out ++ left) stack
                          = bind (value a) (fun x => Return (x :: stack)))) ->
    (exists out left,
        Forall (pending (right_level op)) left
        /\ (forall output stk, guard (right_level op) stk ->
              shunt_tokens ts2 (output, stk) = Return (output ++ out, left ++ stk))
        /\ (forall stack, eval_tokens (out ++ left) stack
                          = bind (value b) (fun x => Return (x :: stack)))) ->
    exists out left,
        Forall (pending (op_level op)) left
        /\ (forall output stk, guard (op_level op) stk ->
              shunt_tokens (ts1 ++ symbol op :: ts2) (output, stk)
              = Return (output ++ out, left ++ stk))
        /\ (forall stack, eval_tokens (out ++ left) stack
                          = bind (value (Binary op a b)) (fun x => Return (x :: stack)))).
  { intros op ts1 ts2 a b (out1 & left1 & Hp1 & Hs1 & He1) (out2 & left2 & Hp2 & Hs2 & He2).
    exists (out1 ++ left1 ++ out2), (left2 ++ [symbol op]). split; [|split].
    - apply Forall_app. split.
      + revert Hp2. apply Forall_impl. intros s. apply pending_weaken.
        destruct op; simpl; lia.
      + constructor; [|constructor].
        destruct (operators_symbol op) as (entry & H & Hp & _).
        exists entry. split; [exact H | lia].
    - intros output stk Hg. rewrite shunt_tokens_app.
      rewrite Hs1 by (revert Hg; apply guard_weaken; destruct op; simpl; lia).
      cbn [bind shunt_tokens].
      rewrite (shunt_token_binop op _ _ _ Hp1 Hg). cbn [bind].
      rewrite Hs2.
      + now rewrite <- !app_assoc.
      + right. intros entry He.
        destruct (operators_symbol op) as (entry' & H & Hp & _).
        rewrite H in He. injection He as <-. rewrite Hp.
        destruct op; simpl; lia.
    - intros stack.
      replace ((out1 ++ left1 ++ out2) ++ left2 ++ [symbol op])
        with ((out1 ++ left1) ++ (out2 ++ left2) ++ [symbol op])
        by now rewrite <- !app_assoc.
      rewrite (eval_tokens_app (out1 ++ left1)), He1. cbn [value].
      destruct (value a) as [x|err]; [|reflexivity]. cbn [bind].
      rewrite (eval_tokens_app (out2 ++ left2)), He2. destruct (value b) as [y|err]; [|reflexivity]. cbn [bind eval_tokens].
      rewrite eval_token_binop. now destruct (apply op x y). }
  induction 1 as [t l Hl | ts e _ IH | ts e _ IH
                  | ts1 ts2 a b _ IH1 _ IH2 | ts e _ IH
                  | ts1 ts2 a b _ IH1 _ IH2
                  | ts1 ts2 a b _ IH1 _ IH2 | ts e _ IH
                  | ts1 ts2 a b _ IH1 _ IH2
                  | ts1 ts2 a b _ IH1 _ IH2].
  - (* a literal *)
    exists [t], []. split; [constructor|]. split.
    + intros output stk _. cbn [shunt_tokens]. unfold shunt_token, is_number.
      now rewrite (py_float_decimal _ _ Hl).
    + intros stack. cbn [app eval_tokens]. unfold eval_token.
      now rewrite (py_float_decimal _ _ Hl).
  - (* a parenthesised sum *)
    destruct IH as (out & left & Hp & Hs & He).
    exists (out ++ left), []. split; [constructor|]. split.
    + intros output stk _. cbn [shunt_tokens]. unfold shunt_token at 1.
      destruct paren_facts as (-> & -> & Hn & Ho). cbn [String.eqb Ascii.eqb Bool.eqb bind].
      rewrite shunt_tokens_app, (Hs output ("(" :: stk)) by now left.
      cbn [bind shunt_tokens]. unfold shunt_token. rewrite Hn, Ho.
      cbn [String.eqb Ascii.eqb Bool.eqb andb].
      rewrite (pop_to_paren_pending _ _ _ _ Hp). cbn [String.eqb Ascii.eqb Bool.eqb andb bind].
      now rewrite app_assoc.
    + intros stack. rewrite app_nil_r. apply He.
  - (* an atom as a power *)
    destruct IH as (out & left & Hp & Hs & He). exists out, left.
    split; [|split; [|exact He]].
    + revert Hp. apply Forall_impl. intros s. apply pending_weaken. simpl. lia.
    + intros output stk Hg. apply Hs. revert Hg. apply guard_weaken. simpl. lia.
  - exact (Hbin Pow _ _ _ _ IH1 IH2).
  - (* a power as a term *)
    destruct IH as (out & left & Hp & Hs & He). exists out, left.
    split; [|split; [|exact He]].
    + revert Hp. apply Forall_impl. intros s. apply pending_weaken. simpl. lia.
    + intros output stk Hg. apply Hs. revert Hg. apply guard_weaken. simpl. lia.
  - exact (Hbin Mul _ _ _ _ IH1 IH2).
  - exact (Hbin Div _ _ _ _ IH1 IH2).
  - (* a term as a sum *)
    destruct IH as (out & left & Hp & Hs & He). exists out, left.
    split; [|split; [|exact He]].
    + revert Hp. apply Forall_impl. intros s. apply pending_weaken. simpl. lia.
    + intros output stk Hg. apply Hs. revert Hg. apply guard_weaken. simpl. lia.
  - exact (Hbin Add _ _ _ _ IH1 IH2).
  - exact (Hbin Sub _ _ _ _ IH1 IH2).
Qed.

(** The calculator on the text of a grammatical token sequence: the postfix
    form evaluates to the value of the tree. *)
Lemma calculate_parses ts e :
  parses Sum ts e -> calculate (text ts) = value e.
Proof.
  intros H. destruct (parses_lexable _ _ _ H) as [Hne Hlex].
  specialize (Hlex [] I eq_refl). rewrite app_nil_r in Hlex.
  destruct (parses_shunt _ _ _ H) as (out & left & Hp & Hs & He).
  unfold calculate.
  rewrite (remove_spaces_plain _ (lexable_no_space _ Hlex)).
  rewrite (lexable_text_nonempty _ Hlex Hne).
  unfold shunting_yard. rewrite (tokenize_text _ Hlex).
  rewrite (Hs [] [] I). cbn [bind fst snd app]. rewrite app_nil_r.
  rewrite (pop_all_pending _ _ _ Hp). cbn [bind].
  unfold evaluate_rpn. rewrite He.
  now destruct (value e).
Qed.

End Correctness.

(* ================================================================= *)
(** * The claims *)

(** C1.  On every valid infix expression (the text of a token sequence of the
    grammar [parses], whose levels give [^] the tightest binding and right
    associativity, [*] and [/] the next and left associativity, [+] and [-]
    the loosest and left associativity) [calculate] returns the value of the
    tree the expression denotes; ["3+4*2/(1-5)^2"] is converted to
    3 4 2 * 1 5 - 2 ^ / + and, in binary64, evaluates to 3.5, and ["2^3^2"]
    evaluates to 512. *)
Theorem calculate_value :
  (forall (num : PyNum) ts e,
      parses Sum ts e -> calculate (text ts) = value e)
  /\ (forall num : PyNum,
        shunting_yard "3+4*2/(1-5)^2"
        = Return ["3"; "4"; "2"; "*"; "1"; "5"; "-"; "2"; "^"; "/"; "+"])
  /\ (forall libm_pow,
        @calculate (Binary64.binary64 libm_pow) "3+4*2/(1-5)^2" = Return 3.5%float)
  /\ (forall libm_pow,
        @calculate (Binary64.binary64 libm_pow) "2^3^2" = Return 512%float).
Proof.
  split; [|split; [|split]].
  - intros num ts e H. now apply calculate_parses.
  - intros num. reflexivity.
  - intros libm_pow. reflexivity.
  - intros libm_pow. reflexivity.
Qed.

Lemma calculate_value_witness :
  let two := Decimal false 2 0 in
  let three := Decimal false 3 0 in
  let tree := Binary Pow (Literal two) (Binary Pow (Literal three) (Literal two)) in
  parses Sum ["2"; "^"; "3"; "^"; "2"] tree
  /\ forall num : PyNum, calculate (text ["2"; "^"; "3"; "^"; "2"]) = value tree.
Proof.
  intros two three tree.
  assert (H : parses Sum ["2"; "^"; "3"; "^"; "2"] tree).
  { apply parses_term, parses_power.
    apply (parses_pow ["2"] ["3"; "^"; "2"]).
    - now apply parses_literal.
    - apply (parses_pow ["3"] ["2"]).
      + now apply parses_literal.
      + apply parses_atom. now apply parses_literal. }
  split; [exact H|].
  intros num. exact (proj1 calculate_value num _ _ H).
Defined.

(** C2.  For an incoming operator token [op] and an operator [s] on top of the
    operator stack, [s] is popped into the output before [op] is pushed
    exactly when [s] has the higher precedence, or the same precedence and
    [op] is left-associative; so ["2^3^2"] becomes 2 3 2 ^ ^ and ["2-3-4"]
    becomes 2 3 - 4 -. *)
Theorem should_pop_rule (num : PyNum) :
  (forall op s op_entry s_entry output below,
      operators op = Some op_entry ->
      operators s = Some s_entry ->
      let pops := (precedence s_entry > precedence op_entry)%Z
                  \/ (precedence s_entry = precedence op_entry
                      /\ associativity op_entry = "left") in
      (_should_pop_operator op s = Return true <-> pops)
      /\ (pops -> shunt_token (output, s :: below) op
                  = shunt_token (output ++ [s], below) op)
      /\ (~ pops -> shunt_token (output, s :: below) op
                    = Return (output, op :: s :: below)))
  /\ shunting_yard "2^3^2" = Return ["2"; "3"; "2"; "^"; "^"]
  /\ shunting_yard "2-3-4" = Return ["2"; "3"; "-"; "4"; "-"].
Proof.
  split; [|split; reflexivity].
  intros op s op_entry s_entry output below Hop Hs pops.
  destruct (operators_inv _ _ Hop) as (o & -> & Hpo & Hao).
  destruct (operators_inv _ _ Hs) as (o' & -> & Hps & _).
  destruct (symbol_facts o) as (Hnum & Hin & _).
  destruct (symbol_facts o') as (_ & _ & Hparen & _).
  assert (Hrule : _should_pop_operator (symbol o) (symbol o')
                  = Return ((precedence s_entry >? precedence op_entry)%Z
                            || ((precedence s_entry =? precedence op_entry)%Z
                                && (associativity op_entry =? "left")))).
  { unfold _should_pop_operator. now rewrite Hs, Hop. }
  assert (Hiff : ((precedence s_entry >? precedence op_entry)%Z
                  || ((precedence s_entry =? precedence op_entry)%Z
                      && (associativity op_entry =? "left"))) = true <-> pops).
  { unfold pops. rewrite orb_true_iff, andb_true_iff, Z.gtb_gt, Z.eqb_eq, String.eqb_eq.
    reflexivity. }
  split; [|split].
  - rewrite Hrule. rewrite <- Hiff. split; [now intros [= ->] | now intros ->].
  - intros Hp. apply Hiff in Hp. unfold shunt_token. rewrite Hnum, Hin.
    cbn [pop_higher]. rewrite Hparen, Hrule, Hp. reflexivity.
  - intros Hp. unfold shunt_token. rewrite Hnum, Hin.
    cbn [pop_higher]. rewrite Hparen, Hrule.
    rewrite (proj1 (not_true_iff_false _) (fun H => Hp (proj1 Hiff H))).
    reflexivity.
Qed.

Lemma should_pop_rule_witness :
  @shunt_token Binary64.without_libm (["2"; "3"], ["*"; "+"]) "-"
  = @shunt_token Binary64.without_libm (["2"; "3"; "*"], ["+"]) "-"
  /\ @shunt_token Binary64.without_libm (["2"; "3"], ["^"]) "^"
     = Return (["2"; "3"], ["^"; "^"]).
Proof.
  pose (num := Binary64.without_libm).
  destruct (proj1 (should_pop_rule num) "-" "*" _ _ ["2"; "3"] ["+"] eq_refl eq_refl)
    as (_ & Hpop & _).
  destruct (proj1 (should_pop_rule num) "^" "^" _ _ ["2"; "3"] [] eq_refl eq_refl)
    as (_ & _ & Hstay).
  split.
  - apply Hpop. left. simpl. lia.
  - apply Hstay. simpl. intros [H|[_ H]]; [lia | discriminate H].
Defined.

(** ** What the converter can raise, and what it returns *)

Section ConverterInvariants.

Context {num : PyNum}.

Lemma stackable_cases s :
  stackable s = true -> s = "(" \/ exists op, s = symbol op.
Proof.
  unfold stackable. intros [H|H]%orb_prop.
  - left. now apply String.eqb_eq.
  - right. now apply in_operators_inv.
Qed.

Lemma pop_higher_returns token output stk :
  in_operators token = true ->
  exists popped stk',
    pop_higher token output stk = Return (output ++ popped, stk')
    /\ stk = popped ++ stk'
    /\ Forall (fun s => (s =? "(") = false) popped.
Proof.
  intros Hin. revert output. induction stk as [|top stk IH]; intros output.
  - exists [], []. cbn. now rewrite app_nil_r.
  - cbn [pop_higher]. destruct (top =? "(") eqn:Hparen; cbn [negb].
    + exists [], (top :: stk). now rewrite app_nil_r.
    + assert (Hb : exists b, _should_pop_operator token top = Return b).
      { unfold _should_pop_operator, in_operators in *.
        destruct (operators top); [|now eexists].
        destruct (operators token); [now eexists | discriminate]. }
      destruct Hb as [[|] ->]; cbn [bind].
      * destruct (IH (output ++ [top])) as (popped & stk' & -> & -> & Hp).
        exists (top :: popped), stk'. rewrite <- app_assoc. repeat split.
        now constructor.
      * exists [], (top :: stk). now rewrite app_nil_r.
Qed.

Lemma pop_to_paren_spec output stk :
  exists popped stk',
    pop_to_paren output stk = (output ++ popped, stk')
    /\ stk = popped ++ stk'
    /\ Forall (fun s => (s =? "(") = false) popped
    /\ (stk' = [] \/ exists below, stk' = "(" :: below).
Proof.
  revert output. induction stk as [|top stk IH]; intros output.
  - exists [], []. cbn. rewrite app_nil_r. repeat split; [constructor | now left].
  - cbn [pop_to_paren]. destruct (top =? "(") eqn:Hparen; cbn [negb].
    + apply String.eqb_eq in Hparen as ->.
      exists [], ("(" :: stk). rewrite app_nil_r. repeat split; [constructor|].
      right. now exists stk.
    + destruct (IH (output ++ [top])) as (popped & stk' & -> & -> & Hp & Hs).
      exists (top :: popped), stk'. rewrite <- app_assoc. repeat split; trivial.
      now constructor.
Qed.

Lemma not_in_popped popped :
  Forall (fun s => (s =? "(") = false) popped -> ~ In "(" popped.
Proof.
  intros H Hin. rewrite Forall_forall in H. now specialize (H _ Hin).
Qed.

(** A token fails in the converter exactly when it is a close parenthesis and
    there is no open parenthesis on the operator stack. *)
Lemma shunt_token_raise output stk token e :
  shunt_token (output, stk) token = Raise e
  <-> token = ")" /\ ~ In "(" stk /\ e = ValueError UnbalancedParentheses.
Proof.
  unfold shunt_token. split.
  - destruct (is_number token); [discriminate|].
    destruct (in_operators token) eqn:Hin.
    { destruct (pop_higher_returns token output stk Hin) as (p & s' & -> & _).
      discriminate. }
    destruct (token =? "("); [discriminate|].
    destruct (String.eqb_spec token ")") as [->|_]; [|discriminate].
    destruct (pop_to_paren_spec output stk) as (popped & stk' & -> & -> & Hp & Hs).
    destruct Hs as [->|[below ->]].
    + intros [= <-]. rewrite app_nil_r. repeat split.
      now apply not_in_popped.
    + discriminate.
  - intros (-> & Hnot & ->). destruct paren_facts as (_ & _ & -> & ->).
    cbn [String.eqb Ascii.eqb Bool.eqb andb].
    destruct (pop_to_paren_spec output stk) as (popped & stk' & -> & -> & Hp & Hs).
    destruct Hs as [->|[below ->]]; [reflexivity|].
    exfalso. apply Hnot. apply in_or_app. right. now left.
Qed.

Lemma shunt_tokens_raise tokens state e :
  shunt_tokens tokens state = Raise e
  <-> exists before after output stk,
        tokens = before ++ ")" :: after
        /\ shunt_tokens before state = Return (output, stk)
        /\ ~ In "(" stk
        /\ e = ValueError UnbalancedParentheses.
Proof.
  revert state. induction tokens as [|t ts IH]; intros state.
  - split; [discriminate|]. intros (before & after & _ & _ & H & _).
    now destruct before.
  - cbn [shunt_tokens]. destruct state as [output stk].
    destruct (shunt_token (output, stk) t) as [state'|e'] eqn:Ht; cbn [bind].
    + rewrite IH. split.
      * intros (before & after & o & s & -> & Hb & Hn & ->).
        exists (t :: before), after, o, s. cbn [app shunt_tokens].
        rewrite Ht. now repeat split.
      * intros (before & after & o & s & Heq & Hb & Hn & ->).
        destruct before as [|t' before].
        -- cbn in Heq, Hb. injection Heq as -> <-. injection Hb as <- <-.
           assert (Hr : shunt_token (output, stk) ")" = Raise (ValueError UnbalancedParentheses))
             by now apply shunt_token_raise.
           congruence.
        -- cbn [app] in Heq. injection Heq as <- ->.
           cbn [shunt_tokens] in Hb. rewrite Ht in Hb. cbn [bind] in Hb.
           exists before, after, o, s. now repeat split.
    + apply shunt_token_raise in Ht as (-> & Hn & ->). split.
      * intros [= <-]. exists [], ts, output, stk. now repeat split.
      * now intros (_ & _ & _ & _ & _ & _ & _ & ->).
Qed.

Lemma popped_rpn popped :
  Forall (fun s => stackable s = true) popped ->
  Forall (fun s => (s =? "(") = false) popped ->
  Forall (fun t => rpn_token t = true) popped.
Proof.
  rewrite !Forall_forall. intros Hs Hp t Ht.
  specialize (Hs _ Ht). specialize (Hp _ Ht). unfold stackable in Hs.
  rewrite Hp in Hs. unfold rpn_token. cbn in Hs. rewrite Hs. apply orb_true_r.
Qed.

Lemma shunt_token_ok state token state' :
  state_ok state -> shunt_token state token = Return state' -> state_ok state'.
Proof.
  destruct state as [output stk]. intros [Hout Hstk]. cbn [fst snd] in *.
  unfold shunt_token.
  destruct (is_number token) eqn:Hnum.
  { intros [= <-]. split; cbn [fst snd]; [|assumption].
    apply Forall_app. split; [assumption|]. constructor; [|constructor].
    unfold rpn_token. now rewrite Hnum. }
  destruct (in_operators token) eqn:Hin.
  { destruct (pop_higher_returns token output stk Hin) as (p & s' & -> & -> & Hp).
    cbn [bind fst snd]. intros [= <-]. apply Forall_app in Hstk as [Hs1 Hs2].
    split; cbn [fst snd].
    - apply Forall_app. split; [assumption|]. now apply popped_rpn.
    - constructor; [|assumption]. unfold stackable. rewrite Hin. apply orb_true_r. }
  destruct (String.eqb_spec token "(") as [->|_].
  { intros [= <-]. split; cbn [fst snd]; [assumption|]. now constructor. }
  destruct (token =? ")"); [|intros [= <-]; now split].
  destruct (pop_to_paren_spec output stk) as (p & s' & -> & -> & Hp & Hs).
  apply Forall_app in Hstk as [Hs1 Hs2].
  destruct Hs as [->|[below ->]]; [discriminate|].
  cbn [String.eqb Ascii.eqb Bool.eqb andb]. intros [= <-]. split; cbn [fst snd].
  - apply Forall_app. split; [assumption|]. now apply popped_rpn.
  - now inversion Hs2.
Qed.

Lemma shunt_tokens_ok tokens state state' :
  state_ok state -> shunt_tokens tokens state = Return state' -> state_ok state'.
Proof.
  revert state. induction tokens as [|t ts IH]; intros state Hok.
  - now intros [= <-].
  - cbn [shunt_tokens]. destruct (shunt_token state t) as [s1|e] eqn:Ht; [|discriminate].
    cbn [bind]. apply IH. now apply (shunt_token_ok state t).
Qed.

(** The final loop fails exactly when a parenthesis is left on the stack. *)
Lemma pop_all_spec output stk :
  Forall (fun s => stackable s = true) stk ->
  (In "(" stk -> pop_all output stk = Raise (ValueError UnbalancedParentheses))
  /\ (~ In "(" stk -> pop_all output stk = Return (output ++ stk)).
Proof.
  intros Hs. revert output. induction Hs as [|s stk Hs _ IH]; intros output.
  - split; [intros [] | intros _; cbn; now rewrite app_nil_r].
  - cbn [pop_all]. destruct (stackable_cases _ Hs) as [->|[op ->]].
    + split; [reflexivity|]. intros H. exfalso. apply H. now left.
    + destruct (symbol_facts op) as (_ & _ & Hparen & -> & _).
      destruct (IH (output ++ [symbol op])) as [IH1 IH2]. split.
      * intros [H|H]; [|now apply IH1].
        apply String.eqb_neq in Hparen. now contradiction Hparen.
      * intros H. rewrite IH2, <- app_assoc; [reflexivity|].
        intros Hin. apply H. now right.
Qed.

Lemma state_ok_initial : state_ok ([], []).
Proof. split; constructor. Qed.

Lemma stackable_no_close stk :
  Forall (fun s => stackable s = true) stk -> ~ In ")" stk.
Proof.
  rewrite Forall_forall. intros H Hin. specialize (H _ Hin). discriminate H.
Qed.

(** The converter raises nothing but the unbalanced-parentheses error. *)
Lemma shunting_yard_raise expression e :
  shunting_yard expression = Raise e -> e = ValueError UnbalancedParentheses.
Proof.
  unfold shunting_yard.
  destruct (shunt_tokens (tokenize expression) ([], [])) as [[output stk]|e'] eqn:Hs;
    cbn [bind fst snd].
  - destruct (shunt_tokens_ok _ _ _ state_ok_initial Hs) as [_ Hstk].
    destruct (pop_all_spec output stk Hstk) as [Hin Hout].
    destruct (in_dec string_dec "(" stk) as [Hi|Hi].
    + rewrite (Hin Hi). now intros [= <-].
    + rewrite (Hout Hi). discriminate.
  - intros [= <-].
    now apply shunt_tokens_raise in Hs as (_ & _ & _ & _ & _ & _ & _ & ->).
Qed.

End ConverterInvariants.

(** C3.  The converter fails only with the unbalanced-parentheses error, and
    in exactly two situations: a close parenthesis is processed when the
    operator stack holds no open parenthesis, or, after all tokens, a
    parenthesis remains on the operator stack; ["(2+3"] and ["2+3)"] both fail
    with this error. *)
Theorem unbalanced_parentheses (num : PyNum) :
  (forall expression e,
      shunting_yard expression = Raise e -> e = ValueError UnbalancedParentheses)
  /\ (forall expression,
        shunting_yard expression = Raise (ValueError UnbalancedParentheses)
        <-> (exists before after output stk,
               tokenize expression = before ++ ")" :: after
               /\ shunt_tokens before ([], []) = Return (output, stk)
               /\ ~ In "(" stk)
            \/ (exists output stk,
                  shunt_tokens (tokenize expression) ([], []) = Return (output, stk)
                  /\ (In "(" stk \/ In ")" stk)))
  /\ calculate "(2+3" = Raise (ValueError UnbalancedParentheses)
  /\ calculate "2+3)" = Raise (ValueError UnbalancedParentheses).
Proof.
  split; [|split; [|split; reflexivity]].
  - intros expression e. apply shunting_yard_raise.
  - intros expression. unfold shunting_yard. split.
    + destruct (shunt_tokens (tokenize expression) ([], [])) as [[output stk]|e'] eqn:Hs;
        cbn [bind fst snd].
      * intros Hp. right. exists output, stk. split; [reflexivity|]. left.
        destruct (shunt_tokens_ok _ _ _ state_ok_initial Hs) as [_ Hstk].
        destruct (in_dec string_dec "(" stk) as [Hi|Hi]; [assumption|].
        destruct (pop_all_spec output stk Hstk) as [_ Hout].
        rewrite (Hout Hi) in Hp. discriminate.
      * intros _. left.
        apply shunt_tokens_raise in Hs as (before & after & o & s & H1 & H2 & H3 & _).
        now exists before, after, o, s.
    + intros [(before & after & o & s & H1 & H2 & H3)|(output & stk & Hs & Hin)].
      * assert (Hr : shunt_tokens (tokenize expression) ([], [])
                     = Raise (ValueError UnbalancedParentheses)).
        { apply shunt_tokens_raise. now exists before, after, o, s. }
        now rewrite Hr.
      * rewrite Hs. cbn [bind fst snd].
        destruct (shunt_tokens_ok _ _ _ state_ok_initial Hs) as [_ Hstk].
        destruct (pop_all_spec output stk Hstk) as [Hraise _].
        destruct Hin as [Hin|Hin]; [now apply Hraise|].
        now apply stackable_no_close in Hin.
Qed.

Lemma unbalanced_parentheses_witness :
  @shunting_yard Binary64.without_libm "(2+3" = Raise (ValueError UnbalancedParentheses)
  /\ @shunting_yard Binary64.without_libm "2+3)" = Raise (ValueError UnbalancedParentheses).
Proof.
  pose proof (proj1 (proj2 (unbalanced_parentheses Binary64.without_libm))) as H.
  split.
  - apply (proj2 (H "(2+3")). right. exists ["2"; "3"], ["+"; "("].
    split; [reflexivity|]. left. right. now left.
  - apply (proj2 (H "2+3)")). left. exists ["2"; "+"; "3"], [], ["2"; "3"], ["+"].
    split; [reflexivity|]. split; [reflexivity|].
    intros [F|F]; [discriminate F | exact F].
Defined.

(** ** What the evaluator can raise *)

Section EvaluatorFacts.

Context {num : PyNum}.

Lemma operator_not_number token entry :
  operators token = Some entry -> py_float token = None.
Proof.
  intros H. destruct (operators_inv _ _ H) as (op & -> & _).
  destruct (symbol_facts op) as (Hn & _). unfold is_number in Hn.
  now destruct (py_float (symbol op)).
Qed.

(** The evaluator raises the division-by-zero error only at a division whose
    right operand is zero. *)
Lemma eval_token_division stack token :
  eval_token stack token = Raise (ValueError DivisionByZero)
  <-> token = "/" /\ exists b a rest, stack = b :: a :: rest /\ equals_zero b = true.
Proof.
  unfold eval_token. split.
  - destruct (py_float token); [discriminate|].
    destruct (operators token) as [entry|]; [|discriminate].
    destruct stack as [|b [|a rest]]; try discriminate.
    destruct (String.eqb_spec token "/") as [->|_]; cbn [andb].
    + destruct (equals_zero b) eqn:Hz.
      * intros _. split; [reflexivity|]. now exists b, a, rest.
      * destruct (function entry a b); discriminate.
    + destruct (function entry a b); discriminate.
  - intros (-> & b & a & rest & -> & Hz). cbn. now rewrite Hz.
Qed.

Lemma eval_token_unknown stack token unknown :
  eval_token stack token = Raise (ValueError (UnknownToken unknown)) ->
  rpn_token token = false.
Proof.
  unfold eval_token, rpn_token, is_number, in_operators.
  destruct (py_float token); [discriminate|].
  destruct (operators token) as [entry|]; [|reflexivity].
  destruct stack as [|b [|a rest]]; try discriminate.
  destruct (_ && _); [discriminate|].
  destruct (function entry a b); discriminate.
Qed.

Lemma eval_token_not_empty stack token :
  eval_token stack token <> Raise (ValueError EmptyExpression).
Proof.
  unfold eval_token.
  destruct (py_float token); [discriminate|].
  destruct (operators token) as [entry|]; [|discriminate].
  destruct stack as [|b [|a rest]]; try discriminate.
  destruct (_ && _); [discriminate|].
  destruct (function entry a b); discriminate.
Qed.

(** An error of the token loop is the error of one token, met on the stack the
    tokens before it have built. *)
Lemma eval_tokens_raise tokens stack e :
  eval_tokens tokens stack = Raise e
  <-> exists before token after stack',
        tokens = before ++ token :: after
        /\ eval_tokens before stack = Return stack'
        /\ eval_token stack' token = Raise e.
Proof.
  revert stack. induction tokens as [|t ts IH]; intros stack.
  - split; [discriminate|]. intros (before & token & after & _ & H & _).
    now destruct before.
  - cbn [eval_tokens]. destruct (eval_token stack t) as [stack1|e1] eqn:Ht; cbn [bind].
    + rewrite IH. split.
      * intros (before & token & after & s' & -> & Hb & He).
        exists (t :: before), token, after, s'. cbn [app eval_tokens].
        rewrite Ht. now repeat split.
      * intros (before & token & after & s' & Heq & Hb & He).
        destruct before as [|t' before].
        -- cbn in Heq, Hb. injection Heq as -> <-. injection Hb as <-. congruence.
        -- cbn [app] in Heq. injection Heq as <- ->.
           cbn [eval_tokens] in Hb. rewrite Ht in Hb.
           exists before, token, after, s'. now repeat split.
    + split.
      * intros [= <-]. exists [], t, ts, stack. now repeat split.
      * intros (before & token & after & s' & Heq & Hb & He).
        destruct before as [|t' before].
        -- cbn in Heq, Hb. injection Heq as -> <-. injection Hb as <-. congruence.
        -- cbn [app] in Heq. injection Heq as <- ->.
           cbn [eval_tokens] in Hb. rewrite Ht in Hb. discriminate.
Qed.

Lemma evaluate_rpn_raise tokens e :
  evaluate_rpn tokens = Raise e
  <-> eval_tokens tokens [] = Raise e
      \/ e = ValueError MalformedExpression
         /\ exists stack, eval_tokens tokens [] = Return stack /\ List.length stack <> 1.
Proof.
  unfold evaluate_rpn.
  destruct (eval_tokens tokens []) as [stack|e'] eqn:Hs; cbn [bind].
  - destruct stack as [|x [|y stack]]; split;
      try (intros [= <-]; right; split; [reflexivity|]; eexists; split;
           [reflexivity | cbn; lia]);
      try (intros [H|(-> & _)]; [discriminate H | reflexivity]);
      try discriminate.
    intros [H|(_ & stack & [= <-] & Hl)]; [discriminate H | now contradiction Hl].
  - split; [intros [= <-]; now left|].
    intros [[= <-]|(_ & stack & H & _)]; [reflexivity | discriminate H].
Qed.

End EvaluatorFacts.

(** C6.  A division whose right operand (the value pushed last) is zero fails
    with the division-by-zero error whatever the division function would do,
    and nothing else raises that error: no other operator, no non-zero right
    operand; in binary64 the sequence 5 0 / fails with it. *)
Theorem division_by_zero :
  (forall num : PyNum,
      (forall a b rest,
          equals_zero b = true ->
          eval_token (b :: a :: rest) "/" = Raise (ValueError DivisionByZero))
      /\ (forall stack token,
            eval_token stack token = Raise (ValueError DivisionByZero) ->
            token = "/"
            /\ exists b a rest, stack = b :: a :: rest /\ equals_zero b = true)
      /\ (forall tokens,
            evaluate_rpn tokens = Raise (ValueError DivisionByZero)
            <-> exists before after b a rest,
                  tokens = before ++ "/" :: after
                  /\ eval_tokens before [] = Return (b :: a :: rest)
                  /\ equals_zero b = true))
  /\ (forall libm_pow,
        @evaluate_rpn (Binary64.binary64 libm_pow) ["5"; "0"; "/"]
        = Raise (ValueError DivisionByZero)).
Proof.
  split; [|intros libm_pow; reflexivity].
  intros num. split; [|split].
  - intros a b rest Hz. apply eval_token_division. split; [reflexivity|].
    now exists b, a, rest.
  - intros stack token H. now apply eval_token_division.
  - intros tokens. rewrite evaluate_rpn_raise. split.
    + intros [H|[[=] _]].
      apply eval_tokens_raise in H as (before & token & after & s' & -> & Hb & He).
      apply eval_token_division in He as (-> & b & a & rest & -> & Hz).
      now exists before, after, b, a, rest.
    + intros (before & after & b & a & rest & -> & Hb & Hz). left.
      apply eval_tokens_raise. exists before, "/", after, (b :: a :: rest).
      repeat split; [assumption|]. apply eval_token_division.
      split; [reflexivity|]. now exists b, a, rest.
Qed.

Lemma division_by_zero_witness :
  @eval_token Binary64.without_libm [0%float; 5%float] "/"
  = Raise (ValueError DivisionByZero).
Proof.
  exact (proj1 (proj1 division_by_zero Binary64.without_libm)
               5%float 0%float [] eq_refl).
Defined.

(** C7.  At an operator token the evaluator takes the value pushed last as the
    right operand [b] and the one below it as the left operand [a], applies
    the operator's function as [f a b] and pushes the result in their place
    (a division by zero apart); with fewer than two values on the stack it
    fails with the insufficient-operands error. *)
Theorem operator_operands (num : PyNum) token entry :
  operators token = Some entry ->
  (forall b a rest,
      (token =? "/") && equals_zero b = false ->
      eval_token (b :: a :: rest) token
      = match function entry a b with
        | inr r => Return (r :: rest)
        | inl e => Raise (ArithmeticError e)
        end)
  /\ (forall left right a b stack,
        py_float left = Some a -> py_float right = Some b ->
        (token =? "/") && equals_zero b = false ->
        eval_tokens [left; right; token] stack
        = match function entry a b with
          | inr r => Return (r :: stack)
          | inl e => Raise (ArithmeticError e)
          end)
  /\ (forall stack,
        List.length stack < 2 ->
        eval_token stack token = Raise (ValueError InsufficientOperands)).
Proof.
  intros Hop. pose proof (operator_not_number _ _ Hop) as Hnum.
  assert (Hstep : forall b a rest,
             (token =? "/") && equals_zero b = false ->
             eval_token (b :: a :: rest) token
             = match function entry a b with
               | inr r => Return (r :: rest)
               | inl e => Raise (ArithmeticError e)
               end).
  { intros b a rest Hz. unfold eval_token. now rewrite Hnum, Hop, Hz. }
  split; [exact Hstep|split].
  - intros left right a b stack Ha Hb Hz. cbn [eval_tokens].
    unfold eval_token at 1. rewrite Ha. cbn [bind].
    unfold eval_token at 1. rewrite Hb. cbn [bind].
    rewrite (Hstep b a stack Hz). now destruct (function entry a b).
  - intros stack Hlen. unfold eval_token. rewrite Hnum, Hop.
    destruct stack as [|b [|a rest]]; [reflexivity | reflexivity | cbn in Hlen; lia].
Qed.

Lemma operator_operands_witness :
  @eval_tokens Binary64.without_libm ["5"; "3"; "-"] [] = Return [2%float]
  /\ @eval_token Binary64.without_libm [3%float] "-"
     = Raise (ValueError InsufficientOperands).
Proof.
  pose proof (operator_operands Binary64.without_libm "-" _ eq_refl) as H.
  split.
  - exact (proj1 (proj2 H) "5" "3" 5%float 3%float [] eq_refl eq_refl eq_refl).
  - apply (proj2 (proj2 H)). cbn. lia.
Defined.

(** C8.  The evaluator returns a value exactly when the token loop ends with
    one value on the stack, and that value is the result; when the loop ends
    with no value or with more than one, it fails with the
    malformed-expression error. *)
Theorem single_result (num : PyNum) tokens :
  (forall x, evaluate_rpn tokens = Return x <-> eval_tokens tokens [] = Return [x])
  /\ (forall stack,
        eval_tokens tokens [] = Return stack ->
        List.length stack <> 1 ->
        evaluate_rpn tokens = Raise (ValueError MalformedExpression)).
Proof.
  unfold evaluate_rpn. split.
  - intros x. destruct (eval_tokens tokens []) as [stack|e]; cbn [bind].
    + destruct stack as [|y [|z stack]]; split; try discriminate;
        intros [= <-]; reflexivity.
    + split; discriminate.
  - intros stack -> Hlen. cbn [bind].
    destruct stack as [|y [|z stack]]; [reflexivity | now contradiction Hlen | reflexivity].
Qed.

Lemma single_result_witness :
  @evaluate_rpn Binary64.without_libm ["2"; "3"] = Raise (ValueError MalformedExpression)
  /\ @evaluate_rpn Binary64.without_libm [] = Raise (ValueError MalformedExpression)
  /\ @evaluate_rpn Binary64.without_libm ["2"; "3"; "+"] = Return 5%float.
Proof.
  split; [|split].
  - apply (proj2 (single_result Binary64.without_libm ["2"; "3"])
                 [3%float; 2%float] eq_refl).
    cbn. lia.
  - apply (proj2 (single_result Binary64.without_libm []) [] eq_refl). cbn. lia.
  - now apply (proj1 (single_result Binary64.without_libm ["2"; "3"; "+"])).
Defined.

(** C9.  Every token the converter returns is a number ([is_number]) or one of
    the five operator symbols, so the evaluator never meets an unknown token
    in it: [calculate] never fails with the unknown-token error. *)
Theorem no_unknown_token (num : PyNum) :
  (forall expression rpn,
      shunting_yard expression = Return rpn ->
      Forall (fun t => is_number t = true \/ In t ["+"; "-"; "*"; "/"; "^"]) rpn)
  /\ (forall expression rpn unknown,
        shunting_yard expression = Return rpn ->
        evaluate_rpn rpn <> Raise (ValueError (UnknownToken unknown)))
  /\ (forall expression unknown,
        calculate expression <> Raise (ValueError (UnknownToken unknown))).
Proof.
  assert (Hrpn : forall expression rpn,
             shunting_yard expression = Return rpn ->
             Forall (fun t => rpn_token t = true) rpn).
  { intros expression rpn. unfold shunting_yard.
    destruct (shunt_tokens (tokenize expression) ([], [])) as [[output stk]|e] eqn:Hs;
      [|discriminate].
    cbn [bind fst snd].
    destruct (shunt_tokens_ok _ _ _ state_ok_initial Hs) as [Hout Hstk].
    cbn [fst snd] in Hout, Hstk.
    destruct (pop_all_spec output stk Hstk) as [Hraise Hret].
    destruct (in_dec string_dec "(" stk) as [Hi|Hi].
    - rewrite (Hraise Hi). discriminate.
    - rewrite (Hret Hi). intros [= <-]. apply Forall_app. split; [assumption|].
      apply popped_rpn; [assumption|].
      rewrite Forall_forall. intros s Hin. apply String.eqb_neq. now intros ->. }
  assert (Heval : forall rpn unknown,
             Forall (fun t => rpn_token t = true) rpn ->
             evaluate_rpn rpn <> Raise (ValueError (UnknownToken unknown))).
  { intros rpn unknown Hall H. apply evaluate_rpn_raise in H as [H|[[=] _]].
    apply eval_tokens_raise in H as (before & token & after & s' & -> & _ & He).
    apply eval_token_unknown in He.
    apply Forall_app in Hall as [_ Hall]. inversion Hall as [|? ? Ht _]. congruence. }
  split; [|split].
  - intros expression rpn H. specialize (Hrpn _ _ H). revert Hrpn.
    apply Forall_impl. intros t. unfold rpn_token. intros [Ht|Ht]%orb_prop.
    + now left.
    + right. destruct (in_operators_inv _ Ht) as [[] ->]; cbn; tauto.
  - intros expression rpn unknown H. apply Heval. now apply (Hrpn expression).
  - intros expression unknown. unfold calculate.
    destruct (is_empty _); [discriminate|].
    destruct (shunting_yard (remove_spaces expression)) as [rpn|e] eqn:Hs; cbn [bind].
    + apply Heval. now apply (Hrpn (remove_spaces expression)).
    + apply shunting_yard_raise in Hs as ->. discriminate.
Qed.

Lemma no_unknown_token_witness :
  Forall (fun t => @is_number Binary64.without_libm t = true
                   \/ In t ["+"; "-"; "*"; "/"; "^"]) ["2"; "3"; "4"; "*"; "+"]
  /\ @evaluate_rpn Binary64.without_libm ["2"; "x"]
     = Raise (ValueError (UnknownToken "x")).
Proof.
  split; [|reflexivity].
  exact (proj1 (no_unknown_token Binary64.without_libm) "2+3*4" _ eq_refl).
Defined.

(** ** The tokenizer across a token boundary *)

Lemma digits_append_nonempty s d r x :
  digits s = (d, r) -> r <> "" -> digits (s ++ x)%string = (d, (r ++ x)%string).
Proof.
  revert d r. induction s as [|c s IH]; simpl; intros d r H Hr.
  - injection H as <- <-. contradiction.
  - destruct (is_digit c) eqn:Hc.
    + destruct (digits s) as [d' r'] eqn:Hd. injection H as <- <-.
      now rewrite (IH _ _ eq_refl Hr).
    + now injection H as <- <-.
Qed.

Lemma match_number_none c s :
  match_number (String c s) = None -> is_digit c = false.
Proof.
  unfold match_number. simpl. destruct (is_digit c); [|reflexivity].
  destruct (digits s) as [d r]. simpl. destruct (optional_dot r) as [dot r2].
  destruct (digits r2). discriminate.
Qed.

Lemma match_number_no_digit c s :
  is_digit c = false -> match_number (String c s) = None.
Proof. intros Hc. unfold match_number. simpl. now rewrite Hc. Qed.

(** A number match that stops before the end of the text is not changed by
    what follows the text. *)
Lemma match_number_extend s token rest x :
  match_number s = Some (token, rest) -> rest <> "" ->
  match_number (s ++ x)%string = Some (token, (rest ++ x)%string).
Proof.
  unfold match_number.
  destruct (digits s) as [i s1] eqn:Hi.
  destruct (is_empty i) eqn:Hi0; [discriminate|].
  destruct (optional_dot s1) as [dot s2] eqn:Hdot.
  destruct (digits s2) as [f s3] eqn:Hf. intros [= <- <-] Hr.
  assert (Hs1 : s1 <> "").
  { intros ->. cbn in Hdot. injection Hdot as <- <-. cbn in Hf.
    injection Hf as <- <-. contradiction. }
  rewrite (digits_append_nonempty _ _ _ x Hi Hs1), Hi0.
  destruct (optional_dot_spec _ _ _ Hdot) as [[-> ->]|(-> & -> & Hh)].
  - cbn [append optional_dot].
    now rewrite (digits_append_nonempty _ _ _ x Hf Hr).
  - assert (Hod : optional_dot (s1 ++ x)%string = ("", (s1 ++ x)%string)).
    { destruct s1 as [|c s1]; [contradiction|]. cbn in Hh.
      apply negb_true_iff in Hh. revert Hh. cbn [append]. unfold optional_dot.
      ascii_cases c; intros Hh; try reflexivity; discriminate Hh. }
    rewrite Hod. now rewrite (digits_append_nonempty _ _ _ x Hf Hr).
Qed.

Lemma match_token_none_append c pre x :
  match_token (String c pre) = None ->
  match_token (String c (pre ++ x)%string) = None.
Proof.
  unfold match_token.
  destruct (match_number (String c pre)) as [m|] eqn:Hn; [discriminate|].
  rewrite (match_number_no_digit c (pre ++ x) (match_number_none _ _ Hn)).
  cbn [match_symbol]. now destruct (is_symbol c).
Qed.

(** After a text with a clear end the scan starts afresh. *)
Lemma findall_clear_end n pre x :
  String.length pre <= n ->
  clear_end n pre = true ->
  findall (n + String.length x) (pre ++ x)%string = findall n pre ++ tokenize x.
Proof.
  revert pre. induction n as [|n IH]; intros pre Hn Hclear.
  - destruct pre; [reflexivity | cbn in Hn; lia].
  - destruct pre as [|c pre].
    + cbn [append findall app]. unfold tokenize. apply findall_fuel; lia.
    + cbn in Hn. cbn [Nat.add]. cbn [findall clear_end] in *.
      change (String c pre ++ x)%string with (String c (pre ++ x)%string).
      destruct (match_token (String c pre)) as [[t r]|] eqn:Ht.
      * pose proof (match_token_shorter _ _ _ Ht) as Hlt. cbn in Hlt.
        change (String c (pre ++ x)%string) with (String c pre ++ x)%string.
        assert (Hm : match_token (String c pre ++ x)%string
                     = Some (t, (r ++ x)%string)).
        { revert Ht. unfold match_token.
          destruct (match_number (String c pre)) as [[t' r']|] eqn:Hn'.
          - intros [= -> ->]. destruct r as [|d r].
            + cbn [is_empty] in Hclear.
              destruct (match_number_spec _ _ _ Hn') as (_ & _ & Hh & _).
              destruct t as [|a [|? ?]]; try discriminate Hclear.
              cbn in Hh. apply digit_not_symbol in Hh. congruence.
            + now rewrite (match_number_extend _ _ _ x Hn').
          - intros Hsym. cbn [append].
            rewrite (match_number_no_digit c (pre ++ x) (match_number_none _ _ Hn')).
            cbn [match_symbol] in *.
            destruct (is_symbol c); [|discriminate]. now injection Hsym as <- <-. }
        rewrite Hm. cbn [app]. f_equal.
        destruct r as [|d r].
        -- cbn [append findall app]. destruct n; [reflexivity|].
           unfold tokenize. cbn [findall app]. apply findall_fuel; cbn; lia.
        -- cbn [is_empty] in Hclear. apply IH; [lia | exact Hclear].
      * rewrite (match_token_none_append _ _ x Ht).
        apply IH; [lia | exact Hclear].
Qed.

Lemma tokenize_token_start before x :
  token_start before = true ->
  tokenize (before ++ x)%string = tokenize before ++ tokenize x.
Proof.
  intros Hstart. unfold tokenize at 1 2. rewrite length_append.
  now apply findall_clear_end.
Qed.

Lemma clear_end_fuel n m s :
  String.length s <= n -> String.length s <= m -> clear_end n s = clear_end m s.
Proof.
  revert m s. induction n as [|n IH]; intros m s Hn Hm.
  - destruct s; [|simpl in Hn; lia]. now destruct m.
  - destruct s as [|c s]; [now destruct m|].
    destruct m as [|m]; [simpl in Hm; lia|]. simpl in Hn, Hm.
    cbn [clear_end].
    destruct (match_token (String c s)) as [[t r]|] eqn:Ht.
    + apply match_token_shorter in Ht. simpl in Ht.
      destruct (is_empty r); [reflexivity|]. apply IH; lia.
    + apply IH; lia.
Qed.

(** A number match followed by something: the match and the first character
    after it decide; what comes later does not. *)
Lemma match_number_restrict token d r r' :
  match_number (token ++ String d r)%string = Some (token, String d r) ->
  match_number (token ++ String d r')%string = Some (token, String d r').
Proof.
  unfold match_number at 1.
  destruct (digits (token ++ String d r)) as [i s1] eqn:Hi.
  destruct (is_empty i) eqn:Hi0; [discriminate|].
  destruct (optional_dot s1) as [dot s2] eqn:Hdot.
  destruct (digits s2) as [f s3] eqn:Hf. intros [= Htok ->].
  destruct (digits_spec _ _ _ Hi) as (_ & Hai & Hh1).
  destruct (digits_spec _ _ _ Hf) as (Hs2 & Haf & Hd).
  assert (Hxd : forall y, head_is (fun c => negb (is_digit c)) (String d y) = true)
    by (intros y; exact Hd).
  subst token. unfold match_number. rewrite !append_assoc'.
  destruct (optional_dot_spec _ _ _ Hdot) as [[-> Hs1]|(-> & -> & Hp)].
  - rewrite (digits_append i i "" ("." ++ f ++ String d r')%string
               (digits_all _ Hai) eq_refl), Hi0.
    cbn [append optional_dot].
    now rewrite (digits_append f f "" (String d r') (digits_all _ Haf) (Hxd r')).
  - rewrite (digits_stop _ Hh1) in Hf. injection Hf as Hf1 Hf2. subst f s1.
    cbn [append].
    rewrite (digits_append i i "" (String d r') (digits_all _ Hai) (Hxd r')), Hi0.
    cbn [append]. cbn in Hp. apply negb_true_iff in Hp.
    assert (Hod : optional_dot (String d r') = ("", String d r')).
    { revert Hp. unfold optional_dot.
      ascii_cases d; intros Hp; try reflexivity; discriminate Hp. }
    now rewrite Hod, (digits_stop _ (Hxd r')).
Qed.

(** A text without a clear end is a text with a clear end followed by a number
    token. *)
Lemma clear_end_false n s :
  String.length s <= n -> clear_end n s = false ->
  exists before token,
    s = (before ++ token)%string /\ token_start before = true
    /\ match_number token = Some (token, "").
Proof.
  revert s. induction n as [|n IH]; intros s Hn Hc.
  - destruct s; [discriminate Hc | cbn in Hn; lia].
  - destruct s as [|c s]; [discriminate Hc|]. cbn in Hn. cbn [clear_end] in Hc.
    destruct (match_token (String c s)) as [[t r]|] eqn:Ht.
    + pose proof (match_token_shorter _ _ _ Ht) as Hlt. cbn in Hlt.
      revert Ht. unfold match_token.
      destruct (match_number (String c s)) as [[t' r']|] eqn:Hm.
      * intros [= -> ->].
        destruct (match_number_spec _ _ _ Hm) as (Hs & Hne & Hh & _).
        destruct r as [|d r].
        -- rewrite append_empty_r in Hs. subst t.
           exists "", (String c s). repeat split. exact Hm.
        -- cbn [is_empty] in Hc.
           assert (Hlen : String.length (String d r) <= n) by lia.
           destruct (IH _ Hlen Hc) as (b1 & tok & Hr & Hb1 & Htok).
           exists (t ++ b1)%string, tok. rewrite append_assoc', <- Hr.
           split; [exact Hs|]. split; [|exact Htok].
           assert (Hb : exists r1, b1 = String d r1).
           { destruct b1 as [|d1 r1].
             - cbn in Hr. subst tok.
               destruct (match_number_spec _ _ _ Htok) as (_ & _ & Hhd & _).
               cbn in Hhd. rewrite Hs in Hm. unfold match_number in Hm.
               destruct (digits (t ++ String d r)) as [i s1] eqn:Hi.
               destruct (is_empty i); [discriminate|].
               destruct (optional_dot s1) as [dot s2].
               destruct (digits s2) as [f s3] eqn:Hf. injection Hm as _ ->.
               destruct (digits_spec _ _ _ Hf) as (_ & _ & Hn3). cbn in Hn3.
               now rewrite Hhd in Hn3.
             - cbn in Hr. injection Hr as -> _. now exists r1. }
           destruct Hb as [r1 ->]. cbn in Hr. injection Hr as ->.
           rewrite Hs in Hm. apply (match_number_restrict _ _ _ r1) in Hm.
           unfold token_start. rewrite length_append.
           destruct t as [|a t]; [contradiction|].
           cbn [String.length Nat.add append clear_end].
           change (String a (t ++ String d r1)%string)
             with (String a t ++ String d r1)%string.
           unfold match_token. rewrite Hm. cbn [is_empty].
           rewrite <- Hb1. unfold token_start. apply clear_end_fuel; cbn; lia.
      * cbn [match_symbol]. destruct (is_symbol c) eqn:Hsym; [|discriminate].
        intros [= <- <-]. destruct s as [|d s]; [cbn in Hc; congruence|].
        cbn [is_empty] in Hc.
        assert (Hlen : String.length (String d s) <= n) by lia.
        destruct (IH _ Hlen Hc) as (b1 & tok & Hr & Hb1 & Htok).
        exists (String c b1), tok. cbn [append]. rewrite <- Hr.
        split; [reflexivity|]. split; [|exact Htok].
        unfold token_start. cbn [String.length clear_end].
        rewrite (match_token_symbol c b1 Hsym).
        destruct b1; [exact Hsym | exact Hb1].
    + assert (Hlen : String.length s <= n) by lia.
      destruct (IH _ Hlen Hc) as (b1 & tok & Hr & Hb1 & Htok).
      exists (String c b1), tok. cbn [append]. rewrite <- Hr.
      split; [reflexivity|]. split; [|exact Htok].
      unfold token_start. cbn [String.length clear_end].
      assert (Hnone : match_token (String c b1) = None).
      { revert Ht. unfold match_token.
        destruct (match_number (String c s)) as [m|] eqn:Hm; [discriminate|].
        rewrite (match_number_no_digit c b1 (match_number_none _ _ Hm)).
        cbn [match_symbol]. now destruct (is_symbol c). }
      rewrite Hnone. exact Hb1.
Qed.

Lemma tokenize_point rest : tokenize ("." ++ rest)%string = tokenize rest.
Proof.
  unfold tokenize. cbn [append String.length findall].
  assert (H : match_token (String "." rest) = None) by reflexivity.
  now rewrite H.
Qed.

Lemma decimal_literal_point ds :
  ds <> "" -> all_chars is_digit ds = true ->
  decimal_literal (ds ++ ".")%string = Some (Decimal false (decimal_value 0 ds) 0).
Proof.
  intros Hne Hall. unfold decimal_literal.
  rewrite (digits_append ds ds "" "." (digits_all _ Hall) eq_refl).
  cbn [append optional_dot digits].
  destruct ds; [contradiction|]. cbn [is_empty negb andb String.length].
  now rewrite append_empty_r.
Qed.

Lemma match_token_trailing_point ds rest :
  ds <> "" -> all_chars is_digit ds = true ->
  head_is (fun c => negb (is_digit c)) rest = true ->
  match_token (ds ++ "." ++ rest)%string = Some ((ds ++ ".")%string, rest).
Proof.
  intros Hne Hall Hrest. unfold match_token, match_number.
  rewrite (digits_append ds ds "" ("." ++ rest)%string (digits_all _ Hall) eq_refl).
  destruct ds as [|c ds]; [contradiction|]. cbn [is_empty append optional_dot].
  now rewrite (digits_stop _ Hrest).
Qed.

Lemma match_token_fraction int_part ds rest :
  int_part <> "" -> all_chars is_digit int_part = true ->
  all_chars is_digit ds = true ->
  match_token (int_part ++ "." ++ ds ++ "." ++ rest)%string
  = Some ((int_part ++ "." ++ ds)%string, ("." ++ rest)%string).
Proof.
  intros Hne Hall Hds. unfold match_token, match_number.
  rewrite (digits_append int_part int_part "" ("." ++ ds ++ "." ++ rest)%string
             (digits_all _ Hall) eq_refl).
  destruct int_part as [|c i]; [contradiction|]. cbn [is_empty append optional_dot].
  now rewrite (digits_append ds ds "" (String "." rest) (digits_all _ Hds) eq_refl).
Qed.

(** A number match is a decimal literal. *)
Lemma match_number_literal s token rest :
  match_number s = Some (token, rest) -> is_literal_token token = true.
Proof.
  unfold match_number.
  destruct (digits s) as [i s1] eqn:Hi.
  destruct (is_empty i) eqn:Hne; [discriminate|].
  destruct (optional_dot s1) as [dot s2] eqn:Hdot.
  destruct (digits s2) as [f s3] eqn:Hf. intros [= <- <-].
  destruct (digits_spec _ _ _ Hi) as (_ & Hai & Hh1).
  destruct (digits_spec _ _ _ Hf) as (_ & Haf & _).
  unfold is_literal_token, decimal_literal.
  destruct (optional_dot_spec _ _ _ Hdot) as [[-> ->]|(-> & -> & _)].
  - rewrite (digits_append i i "" ("." ++ f)%string (digits_all _ Hai) eq_refl).
    cbn [append optional_dot]. rewrite (digits_all _ Haf). now rewrite Hne.
  - rewrite (digits_stop _ Hh1) in Hf. injection Hf as <- <-.
    cbn [append]. rewrite append_empty_r, (digits_all _ Hai).
    cbn [optional_dot digits]. now rewrite Hne.
Qed.

Lemma last_digit s :
  s <> "" -> all_chars is_digit s = true ->
  exists s' c, s = (s' ++ String c "")%string /\ is_digit c = true.
Proof.
  induction s as [|a s IH]; [contradiction|]. intros _ [Ha Hs]%andb_prop.
  destruct s as [|b s].
  - now exists "", a.
  - destruct IH as (s' & c & -> & Hc); [discriminate | exact Hs|].
    now exists (String a s'), c.
Qed.

(** The text before a digit: it has a clear end, or it ends with a number
    token, which is digits and a point, or ends in a digit. *)
Lemma token_start_cases before :
  token_start before = true
  \/ (exists b0 int_part,
        before = (b0 ++ int_part ++ ".")%string /\ token_start b0 = true
        /\ int_part <> "" /\ all_chars is_digit int_part = true)
  \/ (exists b c, before = (b ++ String c "")%string /\ is_digit c = true).
Proof.
  destruct (token_start before) eqn:Hs; [now left | right].
  destruct (clear_end_false _ _ (le_n _) Hs) as (b0 & t & -> & Hb0 & Ht).
  pose proof (match_number_literal _ _ _ Ht) as Hl. unfold is_literal_token in Hl.
  destruct (decimal_literal t) as [l|] eqn:Hd; [|discriminate].
  destruct (decimal_literal_shape _ _ Hd)
    as (i & dot & f & -> & Hi & Hai & Haf & Hdot & _).
  destruct Hdot as [->|[-> ->]].
  - destruct f as [|a f].
    + left. exists b0, i. now repeat split.
    + right. destruct (last_digit (String a f)) as (f' & c & Hf & Hc);
        [discriminate | exact Haf|].
      exists (b0 ++ i ++ "." ++ f')%string, c. split; [|exact Hc].
      rewrite Hf. now rewrite !append_assoc'.
  - right. destruct (last_digit i Hi Hai) as (i' & c & -> & Hc).
    exists (b0 ++ i')%string, c. split; [|exact Hc].
    cbn [append]. now rewrite !append_assoc', append_empty_r.
Qed.

(** C10, the claim as stated fails: in ["1.2.+3"] the digit run [2] is
    directly followed by a point that no digit follows, yet the run belongs to
    the token [1.2], the point after it is dropped, and no token ends in a
    point. *)
Lemma trailing_point_dropped :
  tokenize ("1." ++ "2" ++ "." ++ "+3")%string = ["1.2"; "+"; "3"]
  /\ Forall (fun t => ends_in_point t = false)
            (tokenize ("1." ++ "2" ++ "." ++ "+3")%string).
Proof. split; [reflexivity | repeat constructor]. Qed.

(** C10, amended.  A digit run followed by a point that no digit follows is
    emitted with the point, as one token ending in [.], when the run starts a
    token (the scan begins a match at its first digit: no number token of the
    text before it runs up to it); [is_number] accepts such a token, and in
    binary64 ["2.+3"] evaluates to 5.  When the run instead continues a token
    as its fraction digits, the token ends with the run and the point after it
    is dropped.  There is no third case: the text before a digit run has a
    clear end, or ends with the digits and point of a token, or ends in a
    digit (and the run began earlier). *)
Theorem trailing_point :
  (forall before ds rest,
      token_start before = true ->
      ds <> "" -> all_chars is_digit ds = true ->
      head_is (fun c => negb (is_digit c)) rest = true ->
      tokenize (before ++ ds ++ "." ++ rest)%string
      = tokenize before ++ (ds ++ ".")%string :: tokenize rest
      /\ ends_in_point (ds ++ ".")%string = true
      /\ forall num : PyNum, is_number (ds ++ ".")%string = true)
  /\ (forall before int_part ds rest,
        token_start before = true ->
        int_part <> "" -> all_chars is_digit int_part = true ->
        all_chars is_digit ds = true ->
        tokenize (before ++ int_part ++ "." ++ ds ++ "." ++ rest)%string
        = tokenize before ++ (int_part ++ "." ++ ds)%string :: tokenize rest)
  /\ (forall before,
        token_start before = true
        \/ (exists b0 int_part,
              before = (b0 ++ int_part ++ ".")%string /\ token_start b0 = true
              /\ int_part <> "" /\ all_chars is_digit int_part = true)
        \/ (exists b c, before = (b ++ String c "")%string /\ is_digit c = true))
  /\ tokenize "2.+3" = ["2."; "+"; "3"]
  /\ (forall num : PyNum, is_number "2." = true)
  /\ (forall libm_pow,
        @calculate (Binary64.binary64 libm_pow) "2.+3" = Return 5%float).
Proof.
  split; [|split; [|split; [exact token_start_cases
                           |split; [reflexivity
                                   |split; [reflexivity | intros; reflexivity]]]]].
  - intros before ds rest Hstart Hne Hall Hrest. split; [|split].
    + rewrite (tokenize_token_start _ _ Hstart). f_equal.
      unfold tokenize at 1.
      now apply findall_token; [apply match_token_trailing_point|].
    + clear -Hne. induction ds as [|c ds IH]; [contradiction|].
      destruct ds as [|d ds]; [reflexivity|].
      change (ends_in_point (String d ds ++ ".")%string = true). now apply IH.
    + intros num. unfold is_number.
      now rewrite (py_float_decimal _ _ (decimal_literal_point ds Hne Hall)).
  - intros before int_part ds rest Hstart Hne Hall Hds.
    rewrite (tokenize_token_start _ _ Hstart). f_equal.
    unfold tokenize at 1.
    rewrite (findall_token _ _ _ _ (match_token_fraction _ _ rest Hne Hall Hds) (le_n _)).
    now rewrite tokenize_point.
Qed.

Lemma trailing_point_witness :
  (tokenize ("." ++ "5" ++ "." ++ "+3")%string
   = tokenize "." ++ "5." :: tokenize "+3"
   /\ ends_in_point "5." = true
   /\ forall num : PyNum, is_number "5." = true)
  /\ tokenize ("(" ++ "1" ++ "." ++ "2" ++ "." ++ "+3")%string
     = tokenize "(" ++ "1.2" :: tokenize "+3".
Proof.
  split.
  - apply (proj1 trailing_point "." "5" "+3");
      [reflexivity | discriminate | reflexivity..].
  - apply (proj1 (proj2 trailing_point) "(" "1" "2" "+3");
      [reflexivity | discriminate | reflexivity..].
Defined.

(** ** [calculate] and white space *)

Section CalculateFacts.

Context {num : PyNum}.

Lemma remove_spaces_filter s :
  list_ascii_of_string (remove_spaces s)
  = filter (fun c => negb (Ascii.eqb c " ")) (list_ascii_of_string s).
Proof.
  induction s as [|c s IH]; [reflexivity|]. cbn [remove_spaces list_ascii_of_string filter].
  destruct (Ascii.eqb c " "); cbn [negb]; [exact IH|].
  cbn [list_ascii_of_string]. now rewrite IH.
Qed.

Lemma evaluate_rpn_not_empty tokens :
  evaluate_rpn tokens <> Raise (ValueError EmptyExpression).
Proof.
  intros H. apply evaluate_rpn_raise in H as [H|[[=] _]].
  apply eval_tokens_raise in H as (before & token & after & s' & _ & _ & He).
  now apply eval_token_not_empty in He.
Qed.

Lemma is_empty_spec s : is_empty s = true <-> s = "".
Proof. destruct s; split; trivial; discriminate. Qed.

End CalculateFacts.

(** C4, the claim as stated fails: a tab is a white-space character, so the
    input made of one tab is empty once all white space is stripped, yet
    [calculate] does not report an empty expression on it: it keeps the tab,
    converts and evaluates, and fails with the malformed-expression error. *)
Lemma calculate_tab_not_empty :
  spec_strip_whitespace tab = ""
  /\ forall num : PyNum, calculate tab = Raise (ValueError MalformedExpression).
Proof. split; [reflexivity | intros num; reflexivity]. Qed.

(** C4, amended.  [calculate] removes every space character (U+0020) of its
    input, wherever it stands, and nothing else; it fails with the
    empty-expression error exactly when what remains has zero length, and
    otherwise runs the converter and then the evaluator on what remains and
    returns the evaluator's outcome. *)
Theorem calculate_spaces (num : PyNum) expression :
  list_ascii_of_string (remove_spaces expression)
  = filter (fun c => negb (Ascii.eqb c " ")) (list_ascii_of_string expression)
  /\ (calculate expression = Raise (ValueError EmptyExpression)
      <-> remove_spaces expression = "")
  /\ (remove_spaces expression <> "" ->
      calculate expression
      = bind (shunting_yard (remove_spaces expression)) evaluate_rpn).
Proof.
  split; [apply remove_spaces_filter|]. unfold calculate.
  destruct (is_empty (remove_spaces expression)) eqn:He.
  - apply is_empty_spec in He. rewrite He. split; [tauto | now intros []].
  - assert (Hne : remove_spaces expression <> "").
    { intros H. apply is_empty_spec in H. congruence. }
    split; [|reflexivity]. split; [|now intros H].
    intros H. exfalso.
    destruct (shunting_yard (remove_spaces expression)) as [rpn|e] eqn:Hs;
      cbn [bind] in H.
    + now apply evaluate_rpn_not_empty in H.
    + apply shunting_yard_raise in Hs as ->. discriminate H.
Qed.

Lemma calculate_spaces_witness :
  @calculate Binary64.without_libm " 2 + 3 "
  = bind (@shunting_yard Binary64.without_libm "2+3") evaluate_rpn
  /\ @calculate Binary64.without_libm "   " = Raise (ValueError EmptyExpression).
Proof.
  split.
  - apply (proj2 (proj2 (calculate_spaces Binary64.without_libm " 2 + 3 "))).
    discriminate.
  - now apply (proj1 (proj2 (calculate_spaces Binary64.without_libm "   "))).
Defined.

(** C5, the claim as stated fails: [is_number] accepts [".5"], which has no
    leading digit and is not a decimal literal of the tokenizer's pattern, and
    accepts ["inf"] and ["nan"], which are not finite numbers. *)
Lemma is_number_without_leading_digit :
  is_literal_token ".5" = false
  /\ is_literal_token "inf" = false
  /\ forall num : PyNum,
       is_number ".5" = true /\ is_number "inf" = true /\ is_number "nan" = true.
Proof. repeat split. Qed.

(** C5, amended.  [is_number] returns true exactly on the strings the built-in
    [float] accepts.  These include every integer and decimal-point literal
    with leading digits (the tokenizer's number pattern) and exclude the
    operator and parenthesis symbols; they also include forms without a
    leading digit, with a sign, an exponent, surrounding white space or
    underscores between digits, and the spellings of infinity and NaN. *)
Theorem is_number_float (num : PyNum) :
  (forall token, is_number token = true <-> parse_float token <> None)
  /\ (forall token, is_literal_token token = true -> is_number token = true)
  /\ (forall c, is_symbol c = true -> is_number (String c "") = false)
  /\ Forall (fun token => is_number token = true)
            [".5"; "-2"; "+2"; "1e5"; "2.5E-3"; " 2 "; "1_000"; "inf"; "-Infinity"; "NaN"]
  /\ Forall (fun token => is_number token = false)
            [""; "."; "2.5.1"; "1e"; "_1"; "1__0"; "0x10"; "2 3"; "abc"].
Proof.
  split; [|split; [|split; [|split]]].
  - intros token. unfold is_number, py_float.
    destruct (parse_float token); cbn; split; congruence.
  - intros token. unfold is_literal_token, is_number.
    destruct (decimal_literal token) as [l|] eqn:Hl; [|discriminate].
    now rewrite (py_float_decimal _ _ Hl).
  - intros c. ascii_cases c; intros H; try discriminate H; reflexivity.
  - repeat constructor.
  - repeat constructor.
Qed.

Lemma is_number_float_witness :
  @is_number Binary64.without_libm "12.34" = true
  /\ @is_number Binary64.without_libm "+" = false.
Proof.
  split.
  - now apply (proj1 (proj2 (is_number_float Binary64.without_libm))).
  - now apply (proj1 (proj2 (proj2 (is_number_float Binary64.without_libm)))).
Defined.

(* ================================================================= *)
(** * Further properties of the code *)

(** ** [tokenize] *)

Lemma optional_dot_append s dot r x :
  optional_dot s = (dot, r) ->
  head_is (fun c => negb (Ascii.eqb c ".")) x = true ->
  optional_dot (s ++ x)%string = (dot, (r ++ x)%string).
Proof.
  intros H Hx. destruct (optional_dot_spec _ _ _ H) as [[-> ->]|(-> & -> & Hs)].
  - reflexivity.
  - destruct s as [|c s]; cbn [append].
    + destruct x as [|d x]; [reflexivity|]. cbn in Hx.
      apply negb_true_iff in Hx. revert Hx. unfold optional_dot.
      ascii_cases d; intros Hx; try reflexivity; discriminate Hx.
    + cbn in Hs. apply negb_true_iff in Hs. revert Hs. unfold optional_dot.
      ascii_cases c; intros Hs; try reflexivity; discriminate Hs.
Qed.

Lemma match_token_kind s token rest :
  match_token s = Some (token, rest) ->
  (is_literal_token token = true \/ is_symbol_token token = true)
  /\ s = (token ++ rest)%string.
Proof.
  unfold match_token. destruct (match_number s) as [[t r]|] eqn:Hn.
  - intros [= <- <-]. split; [left; now apply (match_number_literal s t r)|].
    now destruct (match_number_spec _ _ _ Hn).
  - unfold match_symbol. destruct s as [|c s]; [discriminate|].
    destruct (is_symbol c) eqn:Hc; [|discriminate]. intros [= <- <-].
    split; [right; exact Hc | reflexivity].
Qed.

Lemma findall_kinds n s :
  Forall (fun t => is_literal_token t = true \/ is_symbol_token t = true) (findall n s)
  /\ String.length (text (findall n s)) <= String.length s.
Proof.
  revert s. induction n as [|n IH]; intros s; [split; [constructor | cbn; lia]|].
  destruct s as [|c s]; [split; [constructor | cbn; lia]|]. cbn [findall].
  destruct (match_token (String c s)) as [[t r]|] eqn:Ht.
  - destruct (match_token_kind _ _ _ Ht) as [Hk Hs]. destruct (IH r) as [IH1 IH2].
    split; [now constructor|].
    rewrite text_cons, Hs, !length_append. lia.
  - destruct (IH s) as [IH1 IH2]. split; [assumption | cbn; lia].
Qed.

Lemma dropped_all s : dropped "" s.
Proof. induction s; now constructor. Qed.

Lemma dropped_prefix t u s : dropped u s -> dropped (t ++ u)%string (t ++ s)%string.
Proof. intros H. induction t; [exact H | now constructor]. Qed.

Lemma dropped_length t s : dropped t s -> String.length t <= String.length s.
Proof. induction 1; cbn; lia. Qed.

Lemma findall_dropped n s : dropped (text (findall n s)) s.
Proof.
  revert s. induction n as [|n IH]; intros s; [apply dropped_all|].
  destruct s as [|c s]; [constructor|]. cbn [findall].
  destruct (match_token (String c s)) as [[t r]|] eqn:Ht.
  - destruct (match_token_kind _ _ _ Ht) as [_ Hs].
    rewrite text_cons, Hs. apply dropped_prefix, IH.
  - apply dropped_drop, IH.
Qed.

(** X1.  Every token [tokenize] returns is a decimal literal (digits, then
    optionally a point and digits) or one of the seven symbols, and the tokens
    written one after the other are the input with some characters dropped:
    a character is dropped or kept as it is and in its place, never added or
    changed; so the tokens together are no longer than the input. *)
Theorem tokenize_kinds s :
  Forall (fun t => is_literal_token t = true \/ is_symbol_token t = true) (tokenize s)
  /\ dropped (text (tokenize s)) s
  /\ String.length (text (tokenize s)) <= String.length s.
Proof.
  split; [apply findall_kinds|]. split; [apply findall_dropped|].
  apply dropped_length, findall_dropped.
Qed.

Lemma separator_facts c :
  is_separator c = true ->
  is_digit c = false /\ Ascii.eqb c "." = false /\ is_symbol c = false.
Proof.
  unfold is_separator.
  intros [[H1 H2]%andb_prop H3]%andb_prop.
  now rewrite negb_true_iff in H1, H2, H3.
Qed.

Lemma match_token_separator c s :
  is_separator c = true -> match_token (String c s) = None.
Proof.
  intros (Hd & _ & Hs)%separator_facts. unfold match_token.
  rewrite (match_number_no_digit _ _ Hd). cbn. now rewrite Hs.
Qed.

Lemma match_token_before_separator a token rest c b :
  is_separator c = true ->
  match_token a = Some (token, rest) ->
  match_token (a ++ String c b)%string = Some (token, (rest ++ String c b)%string).
Proof.
  intros (Hd & Hp & Hs)%separator_facts.
  assert (Hxd : head_is (fun c => negb (is_digit c)) (String c b) = true)
    by (cbn; now rewrite Hd).
  assert (Hxp : head_is (fun c => negb (Ascii.eqb c ".")) (String c b) = true)
    by (cbn; now rewrite Hp).
  unfold match_token. destruct (match_number a) as [[t r]|] eqn:Hn.
  - intros [= <- <-]. revert Hn. unfold match_number.
    destruct (digits a) as [i s1] eqn:Hi.
    destruct (is_empty i) eqn:Hne; [discriminate|].
    destruct (optional_dot s1) as [dot s2] eqn:Hdot.
    destruct (digits s2) as [f s3] eqn:Hf. intros [= <- <-].
    rewrite (digits_append _ _ _ _ Hi Hxd), Hne.
    rewrite (optional_dot_append _ _ _ _ Hdot Hxp).
    now rewrite (digits_append _ _ _ _ Hf Hxd).
  - destruct a as [|d a]; [discriminate|]. intros Hsym.
    cbn [append]. rewrite (match_number_no_digit d _ (match_number_none _ _ Hn)).
    cbn [match_symbol] in *. destruct (is_symbol d); [|discriminate].
    now injection Hsym as <- <-.
Qed.

Lemma findall_separator n a c b :
  String.length a <= n ->
  is_separator c = true ->
  findall (n + S (String.length b)) (a ++ String c b)%string
  = findall n a ++ tokenize b.
Proof.
  intros Hn Hc. revert a Hn. induction n as [|n IH]; intros a Hn.
  - destruct a; [|cbn in Hn; lia]. cbn [Nat.add append findall app].
    now rewrite (match_token_separator _ _ Hc).
  - destruct a as [|d a].
    + cbn [append Nat.add findall app]. rewrite (match_token_separator _ _ Hc).
      unfold tokenize. apply findall_fuel; lia.
    + cbn in Hn. cbn [Nat.add findall].
      change (String d a ++ String c b)%string
        with (String d (a ++ String c b)%string).
      destruct (match_token (String d a)) as [[t r]|] eqn:Ht.
      * pose proof (match_token_shorter _ _ _ Ht) as Hlt. cbn in Hlt.
        change (String d (a ++ String c b)%string)
          with (String d a ++ String c b)%string.
        rewrite (match_token_before_separator _ _ _ c b Hc Ht).
        cbn [app]. f_equal. apply IH. lia.
      * rewrite (match_token_none_append _ _ (String c b) Ht).
        apply IH. lia.
Qed.

(** X2.  A character that is neither a digit, a point nor a symbol (a space, a
    letter, a comma) is dropped and separates tokens: the tokens of the input
    are those of what stands before it followed by those of what stands after
    it. *)
Theorem tokenize_separator a c b :
  is_separator c = true ->
  tokenize (a ++ String c b)%string = tokenize a ++ tokenize b.
Proof.
  intros Hc. unfold tokenize at 1 2. rewrite length_append. cbn [String.length].
  now apply findall_separator.
Qed.

Lemma tokenize_separator_witness :
  tokenize "12 3.4x+" = tokenize "12" ++ tokenize "3.4x+"
  /\ tokenize "12 3.4x+" = ["12"; "3.4"; "+"].
Proof.
  split; [|reflexivity].
  exact (tokenize_separator "12" " " "3.4x+" eq_refl).
Defined.

(** X3.  Writing a token sequence out and tokenizing the text gives the
    sequence back, when the tokens are decimal literals and symbols and no
    literal stands directly before another literal. *)
Theorem tokenize_round_trip ts :
  lexable ts = true -> tokenize (text ts) = ts.
Proof. apply tokenize_text. Qed.

Lemma tokenize_round_trip_witness :
  tokenize (text ["("; "1.5"; "+"; "2"; ")"; "*"; "3"]) = ["("; "1.5"; "+"; "2"; ")"; "*"; "3"].
Proof.
  exact (tokenize_round_trip ["("; "1.5"; "+"; "2"; ")"; "*"; "3"] eq_refl).
Defined.

(** ** [shunting_yard] *)

Section ConverterProperties.

Context {num : PyNum}.

Lemma opens_popped popped rest :
  Forall (fun s => (s =? "(") = false) popped ->
  opens (popped ++ rest) = opens rest.
Proof.
  intros H. unfold opens. rewrite count_occ_app.
  rewrite (proj1 (count_occ_not_In string_dec popped "(") (not_in_popped _ H)).
  reflexivity.
Qed.

Lemma opens_zero stk : opens stk = 0 <-> ~ In "(" stk.
Proof. unfold opens. symmetry. apply count_occ_not_In. Qed.

(** The number of open parentheses on the stack after a token: one more after
    an open parenthesis, one less after a close parenthesis, unchanged
    otherwise. *)
Lemma shunt_token_opens output stk token state' :
  shunt_token (output, stk) token = Return state' ->
  opens (snd state')
  = if token =? "(" then S (opens stk)
    else if token =? ")" then pred (opens stk)
    else opens stk.
Proof.
  unfold shunt_token.
  destruct (is_number token) eqn:Hnum.
  { intros [= <-]. cbn [snd].
    destruct (String.eqb_spec token "(") as [->|_]; [discriminate Hnum|].
    destruct (String.eqb_spec token ")") as [->|_]; [discriminate Hnum|].
    reflexivity. }
  destruct (in_operators token) eqn:Hin.
  { destruct (pop_higher_returns token output stk Hin) as (p & s' & -> & -> & Hp).
    cbn [bind fst snd]. intros [= <-]. cbn [snd].
    destruct (in_operators_inv _ Hin) as [op ->].
    destruct (symbol_facts op) as (_ & _ & Hparen & _). rewrite Hparen.
    assert (Hclose : (symbol op =? ")") = false) by now destruct op.
    rewrite Hclose, (opens_popped _ _ Hp). unfold opens. cbn [count_occ].
    destruct (string_dec (symbol op) "(") as [E|_]; [|reflexivity].
    apply String.eqb_neq in Hparen. contradiction. }
  destruct (String.eqb_spec token "(") as [->|_].
  { intros [= <-]. reflexivity. }
  destruct (String.eqb_spec token ")") as [->|_]; [|now intros [= <-]].
  destruct (pop_to_paren_spec output stk) as (p & s' & -> & -> & Hp & Hs).
  destruct Hs as [->|[below ->]]; [discriminate|].
  cbn [String.eqb Ascii.eqb Bool.eqb andb]. intros [= <-]. cbn [snd].
  rewrite (opens_popped _ _ Hp). reflexivity.
Qed.

Lemma convert_balanced tokens state :
  state_ok state ->
  (exists rpn, bind (shunt_tokens tokens state)
                    (fun s => pop_all (fst s) (snd s)) = Return rpn)
  <-> balanced (opens (snd state)) tokens = true.
Proof.
  revert state. induction tokens as [|t ts IH]; intros [output stk] Hok.
  - cbn [shunt_tokens bind fst snd balanced]. destruct Hok as [_ Hstk].
    cbn [snd] in Hstk. destruct (pop_all_spec output stk Hstk) as [Hraise Hret].
    rewrite Nat.eqb_eq, opens_zero. split.
    + intros [rpn H] Hin. rewrite (Hraise Hin) in H. discriminate.
    + intros Hin. rewrite (Hret Hin). now eexists.
  - cbn [shunt_tokens balanced snd].
    destruct (shunt_token (output, stk) t) as [state'|e] eqn:Ht; cbn [bind].
    + rewrite (IH state' (shunt_token_ok _ _ _ Hok Ht)).
      rewrite (shunt_token_opens _ _ _ _ Ht).
      destruct (t =? "("); [reflexivity|].
      destruct (String.eqb_spec t ")") as [->|_]; [|reflexivity].
      destruct (opens stk) eqn:Ho; [|reflexivity].
      exfalso. apply opens_zero in Ho.
      assert (Hr : shunt_token (output, stk) ")" = Raise (ValueError UnbalancedParentheses))
        by now apply shunt_token_raise.
      congruence.
    + apply shunt_token_raise in Ht as (-> & Hn & ->). apply opens_zero in Hn.
      rewrite Hn. cbn. split; [intros [rpn H] | intros H]; discriminate.
Qed.

(** X4.  The converter checks the parentheses and nothing else: it returns a
    postfix sequence exactly when the parentheses of the token sequence match,
    and fails with the unbalanced-parentheses error exactly when they do
    not. *)
Theorem shunting_yard_balanced expression :
  ((exists rpn, shunting_yard expression = Return rpn)
   <-> balanced 0 (tokenize expression) = true)
  /\ (shunting_yard expression = Raise (ValueError UnbalancedParentheses)
      <-> balanced 0 (tokenize expression) = false).
Proof.
  pose proof (convert_balanced (tokenize expression) ([], []) state_ok_initial) as H.
  cbn [snd] in H. change (opens []) with 0 in H.
  split; [exact H|].
  destruct (balanced 0 (tokenize expression)).
  - split; [|discriminate]. intros Hr.
    destruct (proj2 H eq_refl) as [rpn Hrpn]. unfold shunting_yard in Hr.
    rewrite Hr in Hrpn. discriminate.
  - split; [reflexivity|]. intros _.
    destruct (shunting_yard expression) as [rpn|e] eqn:Hs.
    + assert (Hex : exists r, shunting_yard expression = Return r) by now exists rpn.
      apply H in Hex. discriminate.
    + now apply shunting_yard_raise in Hs as ->.
Qed.

Lemma without_open_popped popped rest :
  Forall (fun s => (s =? "(") = false) popped ->
  without_open (popped ++ rest) = popped ++ without_open rest.
Proof.
  intros H. unfold without_open. rewrite filter_app. f_equal.
  induction H as [|s popped Hs _ IH]; [reflexivity|].
  cbn [filter]. now rewrite Hs, IH.
Qed.

Lemma stack_no_number stk :
  Forall (fun s => stackable s = true) stk -> filter is_number stk = [].
Proof.
  induction 1 as [|s stk Hs _ IH]; [reflexivity|]. cbn [filter]. rewrite IH.
  destruct (stackable_cases _ Hs) as [->|[op ->]]; [reflexivity|].
  now destruct (symbol_facts op) as (-> & _).
Qed.

(** One token moves tokens between the input, the stack and the output, but
    neither loses nor invents a number or an operator, and the numbers go
    straight to the end of the output. *)
Lemma shunt_token_moves output stk token output' stk' :
  Forall (fun s => stackable s = true) stk ->
  shunt_token (output, stk) token = Return (output', stk') ->
  Permutation (output' ++ without_open stk')
              (output ++ without_open stk ++ filter rpn_token [token])
  /\ filter is_number output' = filter is_number output ++ filter is_number [token].
Proof.
  intros Hstk. unfold shunt_token.
  destruct (is_number token) eqn:Hnum.
  { intros [= <- <-]. unfold rpn_token. cbn [filter]. rewrite Hnum. cbn [orb]. split.
    - rewrite <- !app_assoc. apply Permutation_app_head. cbn.
      apply Permutation_cons_append.
    - rewrite filter_app. cbn [filter]. now rewrite Hnum. }
  destruct (in_operators token) eqn:Hin.
  { destruct (pop_higher_returns token output stk Hin) as (p & s' & -> & -> & Hp).
    cbn [bind fst snd]. intros [= <- <-]. unfold rpn_token. cbn [filter].
    rewrite Hnum, Hin. cbn [orb].
    destruct (in_operators_inv _ Hin) as [op ->].
    destruct (symbol_facts op) as (_ & _ & Hparen & _). split.
    - rewrite (without_open_popped _ _ Hp). unfold without_open at 1.
      cbn [filter]. rewrite Hparen. cbn [negb]. fold (without_open s').
      rewrite <- !app_assoc. do 2 apply Permutation_app_head.
      apply Permutation_cons_append.
    - rewrite filter_app, app_nil_r.
      apply Forall_app in Hstk as [Hs1 _].
      now rewrite (stack_no_number _ Hs1), app_nil_r. }
  assert (Hrpn : filter rpn_token [token] = []).
  { unfold rpn_token. cbn [filter]. now rewrite Hnum, Hin. }
  rewrite Hrpn. cbn [filter]. rewrite Hnum, !app_nil_r.
  destruct (String.eqb_spec token "(") as [->|_].
  { intros [= <- <-]. split; reflexivity. }
  destruct (token =? ")"); [|intros [= <- <-]; split; reflexivity].
  destruct (pop_to_paren_spec output stk) as (p & s' & -> & -> & Hp & Hs).
  destruct Hs as [->|[below ->]]; [discriminate|].
  cbn [String.eqb Ascii.eqb Bool.eqb andb]. intros [= <- <-]. split.
  - rewrite (without_open_popped _ _ Hp). unfold without_open at 2.
    cbn [filter]. fold (without_open below). now rewrite <- app_assoc.
  - rewrite filter_app. apply Forall_app in Hstk as [Hs1 _].
    now rewrite (stack_no_number _ Hs1), app_nil_r.
Qed.

Lemma shunt_tokens_moves tokens output stk output' stk' :
  state_ok (output, stk) ->
  shunt_tokens tokens (output, stk) = Return (output', stk') ->
  Permutation (output' ++ without_open stk')
              (output ++ without_open stk ++ filter rpn_token tokens)
  /\ filter is_number output' = filter is_number output ++ filter is_number tokens.
Proof.
  revert output stk. induction tokens as [|t ts IH]; intros output stk Hok.
  - intros [= <- <-]. cbn [filter]. now rewrite !app_nil_r.
  - cbn [shunt_tokens].
    destruct (shunt_token (output, stk) t) as [[o1 s1]|e] eqn:Ht; [|discriminate].
    cbn [bind]. intros Hts.
    destruct (IH o1 s1 (shunt_token_ok _ _ _ Hok Ht) Hts) as [IHp IHn].
    destruct (shunt_token_moves _ _ _ _ _ (proj2 Hok) Ht) as [Hp Hn].
    split.
    + rewrite IHp. change (t :: ts) with ([t] ++ ts).
      rewrite filter_app, !app_assoc. apply Permutation_app_tail.
      cbn [snd] in Hp. rewrite Hp. now rewrite <- app_assoc.
    + rewrite IHn, Hn. change (t :: ts) with ([t] ++ ts).
      now rewrite filter_app, <- app_assoc.
Qed.

(** X5.  The postfix sequence the converter returns is a rearrangement of the
    numbers and operators of the token sequence, with the parentheses left
    out: nothing is lost or invented, and the numbers keep their order. *)
Theorem shunting_yard_rearranges expression rpn :
  shunting_yard expression = Return rpn ->
  Permutation rpn (filter (fun t => negb (is_paren t)) (tokenize expression))
  /\ filter is_number rpn = filter is_number (tokenize expression).
Proof.
  unfold shunting_yard.
  destruct (shunt_tokens (tokenize expression) ([], [])) as [[output stk]|e] eqn:Hs;
    [|discriminate].
  cbn [bind fst snd]. intros Hpop.
  pose proof (shunt_tokens_ok _ _ _ state_ok_initial Hs) as [Hout Hstk].
  cbn [fst snd] in Hout, Hstk.
  destruct (pop_all_spec output stk Hstk) as [Hraise Hret].
  destruct (in_dec string_dec "(" stk) as [Hi|Hi];
    [rewrite (Hraise Hi) in Hpop; discriminate|].
  rewrite (Hret Hi) in Hpop. injection Hpop as <-.
  destruct (shunt_tokens_moves _ _ _ _ _ state_ok_initial Hs) as [Hp Hn].
  cbn [app without_open filter] in Hp, Hn.
  assert (Hwo : without_open stk = stk).
  { unfold without_open. apply forallb_filter_id. rewrite forallb_forall.
    intros s Hin. apply negb_true_iff, String.eqb_neq. now intros ->. }
  rewrite Hwo in Hp. split.
  - rewrite Hp. clear.
    pose proof (findall_kinds (String.length expression) expression) as [Hk _].
    fold (tokenize expression) in Hk.
    induction Hk as [|t ts Ht _ IH]; [reflexivity|]. cbn [filter].
    assert (Heq : rpn_token t = negb (is_paren t)).
    { unfold rpn_token, is_paren. destruct Ht as [Ht|Ht].
      - unfold is_literal_token, is_number in *.
        destruct (decimal_literal t) as [l|] eqn:Hl; [|discriminate].
        rewrite (py_float_decimal _ _ Hl).
        destruct (decimal_literal_chars _ _ Hl) as (_ & Hh & _).
        destruct t as [|c t]; [reflexivity|]. cbn in Hh. cbn. revert Hh.
        ascii_cases c; intros Hh; try discriminate Hh; reflexivity.
      - destruct (symbol_token_inv _ Ht) as (c & -> & Hc). revert Hc.
        ascii_cases c; intros Hc; try discriminate Hc; reflexivity. }
    rewrite Heq. destruct (negb (is_paren t)); [now constructor | exact IH].
  - rewrite filter_app, (stack_no_number _ Hstk), app_nil_r. exact Hn.
Qed.

End ConverterProperties.

(** ** [evaluate_rpn] *)

Section EvaluatorProperties.

Context {num : PyNum}.

Lemma evaluate_rpn_returns tokens x :
  evaluate_rpn tokens = Return x <-> eval_tokens tokens [] = Return [x].
Proof.
  unfold evaluate_rpn. destruct (eval_tokens tokens []) as [stack|e]; cbn [bind].
  - destruct stack as [|y [|z stack]]; split; try discriminate;
      intros [= <-]; reflexivity.
  - split; discriminate.
Qed.

(** A step that succeeds does not look below the values it uses. *)
Lemma eval_token_frame stack token stack' below :
  eval_token stack token = Return stack' ->
  eval_token (stack ++ below) token = Return (stack' ++ below).
Proof.
  unfold eval_token. destruct (py_float token) as [x|]; [now intros [= <-]|].
  destruct (operators token) as [entry|]; [|discriminate].
  destruct stack as [|b [|a rest]]; try discriminate. cbn [app].
  destruct (_ && _); [discriminate|].
  destruct (function entry a b); [discriminate|]. now intros [= <-].
Qed.

Lemma eval_tokens_frame tokens stack stack' below :
  eval_tokens tokens stack = Return stack' ->
  eval_tokens tokens (stack ++ below) = Return (stack' ++ below).
Proof.
  revert stack. induction tokens as [|t ts IH]; intros stack.
  - now intros [= <-].
  - cbn [eval_tokens]. destruct (eval_token stack t) as [s1|e] eqn:Ht; [|discriminate].
    cbn [bind]. rewrite (eval_token_frame _ _ _ below Ht). cbn [bind]. apply IH.
Qed.

Lemma eval_token_operator token entry stack :
  operators token = Some entry ->
  eval_token stack token
  = match stack with
    | b :: a :: rest =>
        if (token =? "/") && equals_zero b then Raise (ValueError DivisionByZero)
        else match function entry a b with
             | inr r => Return (r :: rest)
             | inl e => Raise (ArithmeticError e)
             end
    | _ => Raise (ValueError InsufficientOperands)
    end.
Proof.
  intros H. unfold eval_token. now rewrite (operator_not_number _ _ H), H.
Qed.

(** X6.  Postfix sequences compose: when two sequences evaluate to [x] and
    [y], the two followed by an operator token evaluate to the operation
    applied to [x] and [y], in this order (with the division-by-zero error for
    a division by a zero [y]). *)
Theorem evaluate_rpn_compose rpn1 rpn2 op x y :
  evaluate_rpn rpn1 = Return x ->
  evaluate_rpn rpn2 = Return y ->
  evaluate_rpn (rpn1 ++ rpn2 ++ [symbol op]) = apply op x y.
Proof.
  intros H1%evaluate_rpn_returns H2%evaluate_rpn_returns. unfold evaluate_rpn.
  rewrite !eval_tokens_app, H1. cbn [bind].
  pose proof (eval_tokens_frame rpn2 [] [y] [x] H2) as H2'. cbn [app] in H2'.
  rewrite eval_tokens_app, H2'. cbn [bind eval_tokens].
  rewrite eval_token_binop. now destruct (apply op x y).
Qed.

Lemma eval_token_count stack token stack' :
  eval_token stack token = Return stack' ->
  List.length stack' + (if in_operators token then 1 else 0)
  = List.length stack + (if is_number token then 1 else 0)
  /\ rpn_token token = true.
Proof.
  unfold eval_token, rpn_token, is_number, in_operators.
  destruct (py_float token) as [x|] eqn:Hf.
  - intros [= <-]. destruct (operators token) as [entry|] eqn:Ho.
    + rewrite (operator_not_number _ _ Ho) in Hf. discriminate.
    + cbn. split; [lia | reflexivity].
  - destruct (operators token) as [entry|]; [|discriminate].
    destruct stack as [|b [|a rest]]; try discriminate.
    destruct (_ && _); [discriminate|].
    destruct (function entry a b); [discriminate|]. intros [= <-].
    cbn. split; [lia | reflexivity].
Qed.

Lemma eval_tokens_count tokens stack stack' :
  eval_tokens tokens stack = Return stack' ->
  List.length stack' + List.length (filter in_operators tokens)
  = List.length stack + List.length (filter is_number tokens)
  /\ Forall (fun t => rpn_token t = true) tokens.
Proof.
  revert stack. induction tokens as [|t ts IH]; intros stack.
  - intros [= <-]. cbn. split; [lia | constructor].
  - cbn [eval_tokens]. destruct (eval_token stack t) as [s1|e] eqn:Ht; [|discriminate].
    cbn [bind]. intros Hts. destruct (IH _ Hts) as [IHc IHf].
    destruct (eval_token_count _ _ _ Ht) as [Hc Hr].
    split; [|now constructor]. cbn [filter].
    destruct (in_operators t), (is_number t); cbn [List.length]; lia.
Qed.

(** X7.  A sequence the evaluator accepts holds only numbers and operators,
    and exactly one number more than operators. *)
Theorem evaluate_rpn_counts tokens x :
  evaluate_rpn tokens = Return x ->
  Forall (fun t => rpn_token t = true) tokens
  /\ List.length (filter is_number tokens)
     = S (List.length (filter in_operators tokens)).
Proof.
  intros H%evaluate_rpn_returns.
  destruct (eval_tokens_count _ _ _ H) as [Hc Hf]. split; [assumption|].
  cbn in Hc. lia.
Qed.

Lemma eval_token_raise_kinds stack token e :
  eval_token stack token = Raise e ->
  e = ValueError InsufficientOperands \/ e = ValueError DivisionByZero
  \/ (e = ValueError (UnknownToken token) /\ rpn_token token = false)
  \/ exists h, e = ArithmeticError h.
Proof.
  unfold eval_token, rpn_token, is_number, in_operators.
  destruct (py_float token); [discriminate|].
  destruct (operators token) as [entry|]; [|intros [= <-]; right; right; left; now split].
  destruct stack as [|b [|a rest]]; try (intros [= <-]; now left).
  destruct (_ && _); [intros [= <-]; right; now left|].
  destruct (function entry a b) as [h|]; [|discriminate].
  intros [= <-]. right. right. right. now exists h.
Qed.

End EvaluatorProperties.

Lemma evaluate_rpn_compose_witness :
  @evaluate_rpn Binary64.without_libm (["1"; "5"; "-"] ++ ["2"] ++ ["^"])
  = Return 16%float.
Proof.
  exact (@evaluate_rpn_compose Binary64.without_libm
           ["1"; "5"; "-"] ["2"] Pow (-4)%float 2%float eq_refl eq_refl).
Defined.

Lemma evaluate_rpn_counts_witness :
  List.length (filter (@is_number Binary64.without_libm) ["3"; "4"; "2"; "*"; "+"])
  = S (List.length (filter (@in_operators Binary64.without_libm) ["3"; "4"; "2"; "*"; "+"])).
Proof.
  exact (proj2 (@evaluate_rpn_counts Binary64.without_libm
                  ["3"; "4"; "2"; "*"; "+"] 11%float eq_refl)).
Defined.

Lemma shunting_yard_rearranges_witness :
  Permutation ["2"; "3"; "+"; "4"; "*"]
              (filter (fun t => negb (is_paren t)) (tokenize "(2+3)*4"))
  /\ filter (@is_number Binary64.without_libm) ["2"; "3"; "+"; "4"; "*"]
     = filter (@is_number Binary64.without_libm) (tokenize "(2+3)*4").
Proof.
  exact (@shunting_yard_rearranges Binary64.without_libm "(2+3)*4" _ eq_refl).
Defined.

(** ** [calculate] *)

Section CalculateProperties.

Context {num : PyNum}.

Lemma shunting_yard_rpn expression rpn :
  shunting_yard expression = Return rpn -> Forall (fun t => rpn_token t = true) rpn.
Proof.
  unfold shunting_yard.
  destruct (shunt_tokens (tokenize expression) ([], [])) as [[output stk]|e] eqn:Hs;
    [|discriminate].
  cbn [bind fst snd].
  destruct (shunt_tokens_ok _ _ _ state_ok_initial Hs) as [Hout Hstk].
  cbn [fst snd] in Hout, Hstk.
  destruct (pop_all_spec output stk Hstk) as [Hraise Hret].
  destruct (in_dec string_dec "(" stk) as [Hi|Hi].
  - rewrite (Hraise Hi). discriminate.
  - rewrite (Hret Hi). intros [= <-]. apply Forall_app. split; [assumption|].
    apply popped_rpn; [assumption|].
    rewrite Forall_forall. intros s Hin. apply String.eqb_neq. now intros ->.
Qed.

Lemma calculate_raise expression e :
  calculate expression = Raise e ->
  In e [ValueError EmptyExpression; ValueError UnbalancedParentheses;
        ValueError InsufficientOperands; ValueError DivisionByZero;
        ValueError MalformedExpression]
  \/ exists h, e = ArithmeticError h.
Proof.
  unfold calculate. destruct (is_empty _); [intros [= <-]; left; cbn; tauto|].
  destruct (shunting_yard (remove_spaces expression)) as [rpn|e'] eqn:Hs; cbn [bind].
  - intros [H|[-> _]]%evaluate_rpn_raise; [|left; cbn; tauto].
    apply eval_tokens_raise in H as (before & token & after & s' & -> & _ & He).
    apply eval_token_raise_kinds in He as [->|[->|[[_ Hr]|[h ->]]]];
      [left; cbn; tauto | left; cbn; tauto | | right; now exists h].
    apply shunting_yard_rpn in Hs. apply Forall_app in Hs as [_ Hs].
    inversion Hs as [|? ? Ht _]. congruence.
  - intros [= <-]. apply shunting_yard_raise in Hs as ->. left. cbn. tauto.
Qed.

(** X8.  The ways [calculate] fails: with one of five of the calculator's own
    errors (empty expression, unbalanced parentheses, insufficient operands,
    division by zero, malformed expression) or with an exception of the
    arithmetic function it called; never with a [KeyError] of the operator
    table. *)
Theorem calculate_failures expression e :
  calculate expression = Raise e ->
  In e [ValueError EmptyExpression; ValueError UnbalancedParentheses;
        ValueError InsufficientOperands; ValueError DivisionByZero;
        ValueError MalformedExpression]
  \/ exists h, e = ArithmeticError h.
Proof. apply calculate_raise. Qed.

Lemma remove_spaces_append a b :
  remove_spaces (a ++ b)%string = (remove_spaces a ++ remove_spaces b)%string.
Proof.
  induction a as [|c a IH]; [reflexivity|]. cbn [append remove_spaces].
  destruct (Ascii.eqb c " "); [exact IH | cbn [append]; now rewrite IH].
Qed.

Lemma remove_spaces_idempotent s :
  remove_spaces (remove_spaces s) = remove_spaces s.
Proof.
  induction s as [|c s IH]; [reflexivity|]. cbn [remove_spaces].
  destruct (Ascii.eqb c " ") eqn:Hc; [exact IH|].
  cbn [remove_spaces]. now rewrite Hc, IH.
Qed.

(** X9.  A space changes nothing wherever it stands, also between two digits,
    which it does not separate: [calculate] gives the same outcome with and
    without it, and the same outcome on an input and on the input without its
    spaces. *)
Theorem calculate_ignores_space a b :
  calculate (a ++ " " ++ b)%string = calculate (a ++ b)%string
  /\ calculate (remove_spaces a) = calculate a.
Proof.
  unfold calculate. split.
  - now rewrite !remove_spaces_append.
  - now rewrite remove_spaces_idempotent.
Qed.

Lemma pending_sum lv left :
  Forall (pending lv) left -> Forall (pending Sum) left.
Proof.
  apply Forall_impl. intros s. apply pending_weaken. destruct lv; simpl; lia.
Qed.

Lemma calculate_tokens ts out left :
  lexable ts = true -> ts <> [] ->
  shunt_tokens ts ([], []) = Return (out, left) ->
  Forall (pending Sum) left ->
  calculate (text ts) = evaluate_rpn (out ++ left).
Proof.
  intros Hlex Hne Hs Hp. unfold calculate.
  rewrite (remove_spaces_plain _ (lexable_no_space _ Hlex)).
  rewrite (lexable_text_nonempty _ Hlex Hne).
  unfold shunting_yard. rewrite (tokenize_text _ Hlex), Hs. cbn [bind fst snd].
  now rewrite (pop_all_pending _ _ _ Hp).
Qed.

(** X10.  An operator with a missing operand: an operator followed by its
    right operand only, or preceded by its left operand only, makes
    [calculate] fail with the insufficient-operands error, once the operand
    that is there has been evaluated; there is no unary minus. *)
Theorem calculate_missing_operand op ts e :
  (parses (right_level op) ts e ->
   calculate (text (symbol op :: ts))
   = bind (value e) (fun _ => Raise (ValueError InsufficientOperands)))
  /\ (parses (left_level op) ts e ->
      calculate (text (ts ++ [symbol op]))
      = bind (value e) (fun _ => Raise (ValueError InsufficientOperands))).
Proof.
  destruct (operators_symbol op) as (entry & Hop & Hprec & _).
  destruct (symbol_facts op) as (_ & _ & _ & _ & Hsym).
  assert (Hpend : pending Sum (symbol op)).
  { exists entry. split; [exact Hop|]. rewrite Hprec. destruct op; simpl; lia. }
  assert (Heval : forall out left,
             (forall stack, eval_tokens (out ++ left) stack
                            = bind (value e) (fun x => Return (x :: stack))) ->
             evaluate_rpn (out ++ left ++ [symbol op])
             = bind (value e) (fun _ => Raise (ValueError InsufficientOperands))).
  { intros out left He. unfold evaluate_rpn.
    rewrite app_assoc, eval_tokens_app, He.
    destruct (value e) as [x|err]; [|reflexivity]. cbn [bind eval_tokens].
    now rewrite (eval_token_operator _ _ _ Hop). }
  split; intros H.
  - destruct (parses_lexable _ _ _ H) as [Hne Hlex].
    specialize (Hlex [] I eq_refl). rewrite app_nil_r in Hlex.
    destruct (parses_shunt _ _ _ H) as (out & left & Hp & Hs & He).
    assert (Hsym' : exists c, symbol op = String c "" /\ is_symbol c = true)
      by now apply symbol_token_inv.
    destruct Hsym' as (c & Hc & Hcs).
    rewrite (calculate_tokens (symbol op :: ts) out (left ++ [symbol op])).
    + now apply Heval.
    + rewrite Hc. now apply lexable_symbol.
    + discriminate.
    + cbn [shunt_tokens].
      rewrite (shunt_token_binop op [] [] [] (Forall_nil _) I). cbn [bind app].
      apply (Hs [] [symbol op]). right. intros entry' He'.
      rewrite Hop in He'. injection He' as <-. rewrite Hprec.
      destruct op; simpl; lia.
    + apply Forall_app. split; [now apply (pending_sum (right_level op))|].
      now constructor.
  - destruct (parses_lexable _ _ _ H) as [Hne Hlex].
    specialize (Hlex [symbol op] Hsym).
    assert (Hsym' : exists c, symbol op = String c "" /\ is_symbol c = true)
      by now apply symbol_token_inv.
    destruct Hsym' as (c & Hc & Hcs).
    assert (Hl1 : lexable [symbol op] = true)
      by (rewrite Hc; now apply lexable_symbol).
    specialize (Hlex Hl1).
    destruct (parses_shunt _ _ _ H) as (out & left & Hp & Hs & He).
    rewrite (calculate_tokens (ts ++ [symbol op]) (out ++ left) [symbol op]).
    + rewrite <- app_assoc. now apply Heval.
    + exact Hlex.
    + now destruct ts.
    + rewrite shunt_tokens_app, (Hs [] [] I). cbn [bind app shunt_tokens].
      rewrite app_nil_r.
      pose proof (shunt_token_binop op out left [] Hp I) as Hb.
      rewrite app_nil_r in Hb. now rewrite Hb.
    + now constructor.
Qed.

Lemma pending_atom_nil left : Forall (pending Atom) left -> left = [].
Proof.
  destruct left as [|s left]; [reflexivity|]. intros H. exfalso.
  inversion H as [|? ? (entry & He & Hr) _].
  destruct (operators_inv _ _ He) as (op & _ & Hp & _).
  rewrite Hp in Hr. destruct op; simpl in Hr; lia.
Qed.

(** X11.  Two operands side by side: a literal or a parenthesised expression
    directly followed by another one (there is no implicit multiplication)
    makes [calculate] fail with the malformed-expression error, once both have
    been evaluated. *)
Theorem calculate_adjacent_operands ts1 ts2 a b :
  parses Atom ts1 a -> parses Atom ts2 b ->
  lexable (ts1 ++ ts2) = true ->
  calculate (text (ts1 ++ ts2))
  = bind (value a)
      (fun _ => bind (value b)
                  (fun _ => Raise (ValueError MalformedExpression))).
Proof.
  intros H1 H2 Hlex.
  destruct (parses_shunt _ _ _ H1) as (out1 & left1 & Hp1 & Hs1 & He1).
  destruct (parses_shunt _ _ _ H2) as (out2 & left2 & Hp2 & Hs2 & He2).
  apply pending_atom_nil in Hp1 as ->. apply pending_atom_nil in Hp2 as ->.
  rewrite app_nil_r in He1, He2.
  rewrite (calculate_tokens (ts1 ++ ts2) (out1 ++ out2) []).
  - rewrite app_nil_r. unfold evaluate_rpn. rewrite eval_tokens_app, He1.
    destruct (value a) as [x|err]; [|reflexivity]. cbn [bind]. rewrite He2.
    now destruct (value b).
  - exact Hlex.
  - destruct (parses_lexable _ _ _ H1) as [Hne _]. now destruct ts1.
  - rewrite shunt_tokens_app, (Hs1 [] [] I). cbn [bind app].
    exact (Hs2 out1 [] I).
  - constructor.
Qed.

(** X15.  Parentheses around a whole expression change nothing: [calculate]
    gives the same outcome with and without them. *)
Theorem calculate_parenthesised ts e :
  parses Sum ts e ->
  calculate (text ("(" :: ts ++ [")"])) = calculate (text ts).
Proof.
  intros H. rewrite (calculate_parses ts e H).
  apply calculate_parses. now apply parses_term, parses_power, parses_atom, parses_parens.
Qed.

End CalculateProperties.

Lemma calculate_parenthesised_witness :
  @calculate Binary64.without_libm (text ("(" :: ["2"; "+"; "3"] ++ [")"]))
  = @calculate Binary64.without_libm (text ["2"; "+"; "3"]).
Proof.
  apply (@calculate_parenthesised Binary64.without_libm ["2"; "+"; "3"]
           (Binary Add (Literal (Decimal false 2 0)) (Literal (Decimal false 3 0)))).
  apply (parses_add ["2"] ["3"]).
  - apply parses_term, parses_power, parses_atom. now apply parses_literal.
  - apply parses_power, parses_atom. now apply parses_literal.
Defined.

Lemma calculate_failures_witness :
  In (@ValueError Binary64.without_libm InsufficientOperands)
     [ValueError EmptyExpression; ValueError UnbalancedParentheses;
      ValueError InsufficientOperands; ValueError DivisionByZero;
      ValueError MalformedExpression]
  \/ exists h, @ValueError Binary64.without_libm InsufficientOperands
               = ArithmeticError h.
Proof.
  exact (@calculate_failures Binary64.without_libm "2+" _ eq_refl).
Defined.

Lemma calculate_missing_operand_witness :
  @calculate Binary64.without_libm (text ["-"; "2"; "*"; "3"])
  = Raise (ValueError InsufficientOperands)
  /\ @calculate Binary64.without_libm (text (["2"; "*"; "3"] ++ ["-"]))
     = Raise (ValueError InsufficientOperands).
Proof.
  assert (H : parses Term ["2"; "*"; "3"]
                (Binary Mul (Literal (Decimal false 2 0)) (Literal (Decimal false 3 0)))).
  { apply (parses_mul ["2"] ["3"]).
    - apply parses_power, parses_atom. now apply parses_literal.
    - apply parses_atom. now apply parses_literal. }
  split.
  - exact (proj1 (@calculate_missing_operand Binary64.without_libm Sub _ _) H).
  - exact (proj2 (@calculate_missing_operand Binary64.without_libm Sub _ _)
                 (parses_term _ _ H)).
Defined.

Lemma calculate_adjacent_operands_witness :
  @calculate Binary64.without_libm (text (["2"] ++ ["("; "3"; ")"]))
  = Raise (ValueError MalformedExpression).
Proof.
  apply (@calculate_adjacent_operands Binary64.without_libm ["2"] ["("; "3"; ")"]
           (Literal (Decimal false 2 0)) (Literal (Decimal false 3 0))).
  - now apply parses_literal.
  - apply (parses_parens ["3"]).
    apply parses_term, parses_power, parses_atom. now apply parses_literal.
  - reflexivity.
Defined.

(** ** [main] *)

Lemma paren_tokens_append a b :
  paren_tokens (a ++ b)%string = paren_tokens a ++ paren_tokens b.
Proof.
  induction a as [|c a IH]; [reflexivity|]. cbn [append paren_tokens].
  destruct (_ || _); [cbn [app]|]; now rewrite IH.
Qed.

Lemma paren_tokens_decimal s :
  all_chars is_decimal_char s = true -> paren_tokens s = [].
Proof.
  induction s as [|c s IH]; [reflexivity|]. intros [Hc Hs]%andb_prop.
  cbn [paren_tokens]. rewrite (IH Hs). revert Hc.
  ascii_cases c; intros Hc; try discriminate Hc; reflexivity.
Qed.

Lemma is_paren_char c :
  is_paren (String c "") = Ascii.eqb c "(" || Ascii.eqb c ")".
Proof. ascii_cases c; reflexivity. Qed.

Lemma paren_is_symbol c :
  Ascii.eqb c "(" || Ascii.eqb c ")" = true -> is_symbol c = true.
Proof. ascii_cases c; intros H; try discriminate H; reflexivity. Qed.

Lemma findall_parens n s :
  String.length s <= n -> filter is_paren (findall n s) = paren_tokens s.
Proof.
  revert s. induction n as [|n IH]; intros s Hn.
  - destruct s; [reflexivity | cbn in Hn; lia].
  - destruct s as [|c s]; [reflexivity|]. cbn in Hn. cbn [findall].
    unfold match_token.
    destruct (match_number (String c s)) as [[t r]|] eqn:Hm.
    + destruct (match_number_spec _ _ _ Hm) as (Hs & Hne & Hh & Hall).
      assert (Hlen : String.length r <= n).
      { apply (f_equal String.length) in Hs. rewrite length_append in Hs.
        cbn in Hs. destruct t; [contradiction | cbn in Hs; lia]. }
      cbn [filter]. rewrite (IH r Hlen), Hs, paren_tokens_append.
      rewrite (paren_tokens_decimal _ Hall).
      assert (Hp : is_paren t = false).
      { destruct t as [|d t]; [reflexivity|]. cbn in Hh. unfold is_paren. cbn.
        revert Hh. ascii_cases d; intros Hh; try discriminate Hh; reflexivity. }
      now rewrite Hp.
    + cbn [match_symbol paren_tokens]. destruct (is_symbol c) eqn:Hc.
      * cbn [filter]. rewrite is_paren_char, (IH s) by lia. reflexivity.
      * rewrite (IH s) by lia.
        destruct (Ascii.eqb c "(" || Ascii.eqb c ")") eqn:Hp; [|reflexivity].
        apply paren_is_symbol in Hp. congruence.
Qed.

Lemma tokenize_parens s : filter is_paren (tokenize s) = paren_tokens s.
Proof. apply findall_parens, le_n. Qed.

Lemma paren_tokens_remove_spaces s :
  paren_tokens (remove_spaces s) = paren_tokens s.
Proof.
  induction s as [|c s IH]; [reflexivity|]. cbn [remove_spaces].
  destruct (Ascii.eqb_spec c " ") as [->|_]; [exact IH|].
  cbn [paren_tokens]. now rewrite IH.
Qed.

Lemma balanced_parens depth tokens :
  balanced depth tokens = balanced depth (filter is_paren tokens).
Proof.
  revert depth. induction tokens as [|t ts IH]; intros depth; [reflexivity|].
  cbn [balanced filter]. unfold is_paren.
  destruct (String.eqb_spec t "(") as [->|_]; [cbn; apply IH|].
  destruct (String.eqb_spec t ")") as [->|_]; cbn [orb].
  - cbn. destruct depth; [reflexivity | apply IH].
  - apply IH.
Qed.

Section MainProperties.

Context {num : PyNum}.

(** Spaces do not change whether the converter accepts an input. *)
Lemma shunting_yard_spaces expression rpn :
  shunting_yard (remove_spaces expression) = Return rpn ->
  exists rpn', shunting_yard expression = Return rpn'.
Proof.
  intros H.
  apply (proj2 (convert_balanced (tokenize expression) ([], []) state_ok_initial)).
  cbn [snd]. rewrite balanced_parens, tokenize_parens.
  rewrite <- paren_tokens_remove_spaces, <- tokenize_parens, <- balanced_parens.
  apply (proj1 (convert_balanced (tokenize (remove_spaces expression)) ([], [])
                                 state_ok_initial)).
  now exists rpn.
Qed.

Lemma calculate_returns expression x :
  calculate expression = Return x ->
  exists rpn, shunting_yard (remove_spaces expression) = Return rpn
              /\ evaluate_rpn rpn = Return x.
Proof.
  unfold calculate. destruct (is_empty _); [discriminate|].
  destruct (shunting_yard (remove_spaces expression)) as [rpn|e]; [|discriminate].
  cbn [bind]. intros H. now exists rpn.
Qed.

(** X12.  What the loop of [main] prints for an expression: the error, for one
    of the calculator's five errors; the unexpected-error line, for an
    exception of the arithmetic; or else the postfix form and the result.
    When [calculate] has returned, the second conversion, of the expression
    with its spaces, cannot fail. *)
Theorem answer_cases expression :
  (exists kind,
      answer expression = [ErrorLine kind]
      /\ calculate expression = Raise (ValueError kind)
      /\ In kind [EmptyExpression; UnbalancedParentheses; InsufficientOperands;
                  DivisionByZero; MalformedExpression])
  \/ (exists h,
        answer expression = [UnexpectedLine (ArithmeticError h)]
        /\ calculate expression = Raise (ArithmeticError h))
  \/ (exists x rpn,
        answer expression = [RPNLine (String.concat " " rpn); ResultLine x]
        /\ calculate expression = Return x
        /\ shunting_yard expression = Return rpn).
Proof.
  unfold answer. destruct (calculate expression) as [x|e] eqn:Hc.
  - right. right.
    destruct (calculate_returns _ _ Hc) as (rpn & Hs & _).
    destruct (shunting_yard_spaces _ _ Hs) as [rpn' ->].
    now exists x, rpn'.
  - destruct (calculate_raise _ _ Hc) as [Hin|[h ->]].
    + left. cbn in Hin.
      destruct Hin as [<-|[<-|[<-|[<-|[<-|[]]]]]]; eexists;
        (split; [reflexivity | split; [reflexivity | cbn; tauto]]).
    + right. left. now exists h.
Qed.

(** X13.  For an expression without spaces, the postfix form [main] prints is
    the one that was evaluated: evaluating it gives the printed result. *)
Theorem answer_consistent expression x :
  all_chars (fun c => negb (Ascii.eqb c " ")) expression = true ->
  calculate expression = Return x ->
  exists rpn,
    answer expression = [RPNLine (String.concat " " rpn); ResultLine x]
    /\ evaluate_rpn rpn = Return x.
Proof.
  intros Hplain Hc. destruct (calculate_returns _ _ Hc) as (rpn & Hs & He).
  rewrite (remove_spaces_plain _ Hplain) in Hs. exists rpn.
  unfold answer. now rewrite Hc, Hs.
Qed.

(** X14.  The loop reads nothing after a line that is a quit word ([quit],
    [exit] or [q], in any letter case and with white space around it) or after
    a keyboard interrupt: what follows changes nothing of what is printed. *)
Theorem main_stops before rest :
  (forall s, is_quit (strip s) = true ->
             main (before ++ Line s :: rest) = main (before ++ [Line s]))
  /\ main (before ++ KeyboardInterrupt :: rest)
     = main (before ++ [KeyboardInterrupt]).
Proof.
  unfold main. split; [intros s Hq|]; f_equal;
    induction before as [|[l|] before IH]; cbn [app loop];
    rewrite ?Hq; try reflexivity;
    destruct (is_quit (strip l)); try reflexivity;
    destruct (is_empty (strip l)); now rewrite IH.
Qed.

End MainProperties.

Lemma answer_consistent_witness :
  exists rpn,
    @answer Binary64.without_libm "(2+3)*4"
    = [RPNLine (String.concat " " rpn); @ResultLine Binary64.without_libm 20%float]
    /\ @evaluate_rpn Binary64.without_libm rpn = Return 20%float.
Proof.
  exact (@answer_consistent Binary64.without_libm "(2+3)*4" 20%float eq_refl eq_refl).
Defined.

Lemma main_stops_witness :
  @main Binary64.without_libm ([Line "2+3"] ++ Line "  QuIt " :: [Line "4"])
  = @main Binary64.without_libm ([Line "2+3"] ++ [Line "  QuIt "])
  /\ @main Binary64.without_libm [Line "2+3"; Line "  QuIt "; Line "4"]
     = [Banner; Prompt; RPNLine "2 3 +"; @ResultLine Binary64.without_libm 5%float;
        Prompt].
Proof.
  split; [|reflexivity].
  exact (proj1 (@main_stops Binary64.without_libm [Line "2+3"] [Line "4"])
               "  QuIt " eq_refl).
Defined.
